(** * devregs: the TRM text scanner and the SVD converter

    Shallow embedding of [scripts/parse_trm_to_devregs.py] and of the field
    loop of [scripts/svd2devregs.py].

    Text is Python 3 [str]: a list of Unicode code points.  The patterns of
    the script are values of a small regular-expression syntax, run by a
    backtracking matcher that lists every way a pattern can match in the
    order in which [re] tries them, so that the head of the list is the match
    [re] reports.  Character classes are those of [re] on the Basic Latin
    block, plus Unicode white space; letters and digits of other blocks are
    outside [\w] and [\d] here. *)

From Stdlib Require Import String Ascii.
From Stdlib Require Import NArith ZArith Bool Arith Lia List.
From Stdlib Require Import DecimalString.
Import ListNotations.



(** ** Text *)

Definition char := N.
Definition str := list char.

(** Code points of a literal written in this file (ASCII only). *)
Fixpoint u (s : string) : str :=
  match s with
  | EmptyString => []
  | String a s' => N_of_ascii a :: u s'
  end.

Definition NL : char := 10%N.
Definition TAB : char := 9%N.
Definition UNDERSCORE : char := 95%N.
Definition EQUALS : char := 61%N.

Definition str_eqb (a b : str) : bool :=
  if list_eq_dec N.eq_dec a b then true else false.

Fixpoint starts_with (p s : str) : bool :=
  match p, s with
  | [], _ => true
  | x :: p', y :: s' => N.eqb x y && starts_with p' s'
  | _ :: _, [] => false
  end.

(** [sub in s], Python's substring test. *)
Fixpoint contains (sub s : str) : bool :=
  starts_with sub s ||
  match s with
  | [] => false
  | _ :: s' => contains sub s'
  end.

(** ** Character classes of [re] *)

Definition between (lo hi c : N) : bool := (N.leb lo c && N.leb c hi)%bool.

(** [\s]: [str.isspace] of one code point. *)
Definition is_space (c : char) : bool :=
  (between 9 13 c || between 28 32 c || N.eqb c 133 || N.eqb c 160
   || N.eqb c 5760 || between 8192 8202 c || N.eqb c 8232 || N.eqb c 8233
   || N.eqb c 8239 || N.eqb c 8287 || N.eqb c 12288)%N.

(** Membership in a table of ranges of code points, both ends included. *)
Fixpoint in_ranges (t : list (N * N)) (c : N) : bool :=
  match t with
  | [] => false
  | (lo, hi) :: t' => between lo hi c || in_ranges t' c
  end.

(** The decimal digits of Unicode 14.0, the tables of CPython 3.11: what
    [\d] matches in a [str] pattern.  Each range begins at a digit zero and
    holds the ten digits in order, once or, from 120782 to 120831 (the
    mathematical digits), five times over. *)
Definition digit_ranges : list (N * N) :=
  [(48, 57); (1632, 1641); (1776, 1785); (1984, 1993); (2406, 2415);
   (2534, 2543); (2662, 2671); (2790, 2799); (2918, 2927); (3046, 3055);
   (3174, 3183); (3302, 3311); (3430, 3439); (3558, 3567); (3664, 3673);
   (3792, 3801); (3872, 3881); (4160, 4169); (4240, 4249); (6112, 6121);
   (6160, 6169); (6470, 6479); (6608, 6617); (6784, 6793); (6800, 6809);
   (6992, 7001); (7088, 7097); (7232, 7241); (7248, 7257); (42528, 42537);
   (43216, 43225); (43264, 43273); (43472, 43481); (43504, 43513);
   (43600, 43609); (44016, 44025); (65296, 65305); (66720, 66729);
   (68912, 68921); (69734, 69743); (69872, 69881); (69942, 69951);
   (70096, 70105); (70384, 70393); (70736, 70745); (70864, 70873);
   (71248, 71257); (71360, 71369); (71472, 71481); (71904, 71913);
   (72016, 72025); (72784, 72793); (73040, 73049); (73120, 73129);
   (92768, 92777); (92864, 92873); (93008, 93017); (120782, 120831);
   (123200, 123209); (123632, 123641); (125264, 125273); (130032, 130041)]%N.

(** What [\w] matches in a [str] pattern: the underscore and the
    alphanumeric characters of Unicode 14.0 ([str.isalnum]), the digits
    among them. *)
Definition word_ranges : list (N * N) :=
  [(48, 57); (65, 90); (95, 95); (97, 122); (170, 170); (178, 179);
   (181, 181); (185, 186); (188, 190); (192, 214); (216, 246); (248, 705);
   (710, 721); (736, 740); (748, 748); (750, 750); (880, 884); (886, 887);
   (890, 893); (895, 895); (902, 902); (904, 906); (908, 908); (910, 929);
   (931, 1013); (1015, 1153); (1162, 1327); (1329, 1366); (1369, 1369);
   (1376, 1416); (1488, 1514); (1519, 1522); (1568, 1610); (1632, 1641);
   (1646, 1647); (1649, 1747); (1749, 1749); (1765, 1766); (1774, 1788);
   (1791, 1791); (1808, 1808); (1810, 1839); (1869, 1957); (1969, 1969);
   (1984, 2026); (2036, 2037); (2042, 2042); (2048, 2069); (2074, 2074);
   (2084, 2084); (2088, 2088); (2112, 2136); (2144, 2154); (2160, 2183);
   (2185, 2190); (2208, 2249); (2308, 2361); (2365, 2365); (2384, 2384);
   (2392, 2401); (2406, 2415); (2417, 2432); (2437, 2444); (2447, 2448);
   (2451, 2472); (2474, 2480); (2482, 2482); (2486, 2489); (2493, 2493);
   (2510, 2510); (2524, 2525); (2527, 2529); (2534, 2545); (2548, 2553);
   (2556, 2556); (2565, 2570); (2575, 2576); (2579, 2600); (2602, 2608);
   (2610, 2611); (2613, 2614); (2616, 2617); (2649, 2652); (2654, 2654);
   (2662, 2671); (2674, 2676); (2693, 2701); (2703, 2705); (2707, 2728);
   (2730, 2736); (2738, 2739); (2741, 2745); (2749, 2749); (2768, 2768);
   (2784, 2785); (2790, 2799); (2809, 2809); (2821, 2828); (2831, 2832);
   (2835, 2856); (2858, 2864); (2866, 2867); (2869, 2873); (2877, 2877);
   (2908, 2909); (2911, 2913); (2918, 2927); (2929, 2935); (2947, 2947);
   (2949, 2954); (2958, 2960); (2962, 2965); (2969, 2970); (2972, 2972);
   (2974, 2975); (2979, 2980); (2984, 2986); (2990, 3001); (3024, 3024);
   (3046, 3058); (3077, 3084); (3086, 3088); (3090, 3112); (3114, 3129);
   (3133, 3133); (3160, 3162); (3165, 3165); (3168, 3169); (3174, 3183);
   (3192, 3198); (3200, 3200); (3205, 3212); (3214, 3216); (3218, 3240);
   (3242, 3251); (3253, 3257); (3261, 3261); (3293, 3294); (3296, 3297);
   (3302, 3311); (3313, 3314); (3332, 3340); (3342, 3344); (3346, 3386);
   (3389, 3389); (3406, 3406); (3412, 3414); (3416, 3425); (3430, 3448);
   (3450, 3455); (3461, 3478); (3482, 3505); (3507, 3515); (3517, 3517);
   (3520, 3526); (3558, 3567); (3585, 3632); (3634, 3635); (3648, 3654);
   (3664, 3673); (3713, 3714); (3716, 3716); (3718, 3722); (3724, 3747);
   (3749, 3749); (3751, 3760); (3762, 3763); (3773, 3773); (3776, 3780);
   (3782, 3782); (3792, 3801); (3804, 3807); (3840, 3840); (3872, 3891);
   (3904, 3911); (3913, 3948); (3976, 3980); (4096, 4138); (4159, 4169);
   (4176, 4181); (4186, 4189); (4193, 4193); (4197, 4198); (4206, 4208);
   (4213, 4225); (4238, 4238); (4240, 4249); (4256, 4293); (4295, 4295);
   (4301, 4301); (4304, 4346); (4348, 4680); (4682, 4685); (4688, 4694);
   (4696, 4696); (4698, 4701); (4704, 4744); (4746, 4749); (4752, 4784);
   (4786, 4789); (4792, 4798); (4800, 4800); (4802, 4805); (4808, 4822);
   (4824, 4880); (4882, 4885); (4888, 4954); (4969, 4988); (4992, 5007);
   (5024, 5109); (5112, 5117); (5121, 5740); (5743, 5759); (5761, 5786);
   (5792, 5866); (5870, 5880); (5888, 5905); (5919, 5937); (5952, 5969);
   (5984, 5996); (5998, 6000); (6016, 6067); (6103, 6103); (6108, 6108);
   (6112, 6121); (6128, 6137); (6160, 6169); (6176, 6264); (6272, 6276);
   (6279, 6312); (6314, 6314); (6320, 6389); (6400, 6430); (6470, 6509);
   (6512, 6516); (6528, 6571); (6576, 6601); (6608, 6618); (6656, 6678);
   (6688, 6740); (6784, 6793); (6800, 6809); (6823, 6823); (6917, 6963);
   (6981, 6988); (6992, 7001); (7043, 7072); (7086, 7141); (7168, 7203);
   (7232, 7241); (7245, 7293); (7296, 7304); (7312, 7354); (7357, 7359);
   (7401, 7404); (7406, 7411); (7413, 7414); (7418, 7418); (7424, 7615);
   (7680, 7957); (7960, 7965); (7968, 8005); (8008, 8013); (8016, 8023);
   (8025, 8025); (8027, 8027); (8029, 8029); (8031, 8061); (8064, 8116);
   (8118, 8124); (8126, 8126); (8130, 8132); (8134, 8140); (8144, 8147);
   (8150, 8155); (8160, 8172); (8178, 8180); (8182, 8188); (8304, 8305);
   (8308, 8313); (8319, 8329); (8336, 8348); (8450, 8450); (8455, 8455);
   (8458, 8467); (8469, 8469); (8473, 8477); (8484, 8484); (8486, 8486);
   (8488, 8488); (8490, 8493); (8495, 8505); (8508, 8511); (8517, 8521);
   (8526, 8526); (8528, 8585); (9312, 9371); (9450, 9471); (10102, 10131);
   (11264, 11492); (11499, 11502); (11506, 11507); (11517, 11517);
   (11520, 11557); (11559, 11559); (11565, 11565); (11568, 11623);
   (11631, 11631); (11648, 11670); (11680, 11686); (11688, 11694);
   (11696, 11702); (11704, 11710); (11712, 11718); (11720, 11726);
   (11728, 11734); (11736, 11742); (11823, 11823); (12293, 12295);
   (12321, 12329); (12337, 12341); (12344, 12348); (12353, 12438);
   (12445, 12447); (12449, 12538); (12540, 12543); (12549, 12591);
   (12593, 12686); (12690, 12693); (12704, 12735); (12784, 12799);
   (12832, 12841); (12872, 12879); (12881, 12895); (12928, 12937);
   (12977, 12991); (13312, 19903); (19968, 42124); (42192, 42237);
   (42240, 42508); (42512, 42539); (42560, 42606); (42623, 42653);
   (42656, 42735); (42775, 42783); (42786, 42888); (42891, 42954);
   (42960, 42961); (42963, 42963); (42965, 42969); (42994, 43009);
   (43011, 43013); (43015, 43018); (43020, 43042); (43056, 43061);
   (43072, 43123); (43138, 43187); (43216, 43225); (43250, 43255);
   (43259, 43259); (43261, 43262); (43264, 43301); (43312, 43334);
   (43360, 43388); (43396, 43442); (43471, 43481); (43488, 43492);
   (43494, 43518); (43520, 43560); (43584, 43586); (43588, 43595);
   (43600, 43609); (43616, 43638); (43642, 43642); (43646, 43695);
   (43697, 43697); (43701, 43702); (43705, 43709); (43712, 43712);
   (43714, 43714); (43739, 43741); (43744, 43754); (43762, 43764);
   (43777, 43782); (43785, 43790); (43793, 43798); (43808, 43814);
   (43816, 43822); (43824, 43866); (43868, 43881); (43888, 44002);
   (44016, 44025); (44032, 55203); (55216, 55238); (55243, 55291);
   (63744, 64109); (64112, 64217); (64256, 64262); (64275, 64279);
   (64285, 64285); (64287, 64296); (64298, 64310); (64312, 64316);
   (64318, 64318); (64320, 64321); (64323, 64324); (64326, 64433);
   (64467, 64829); (64848, 64911); (64914, 64967); (65008, 65019);
   (65136, 65140); (65142, 65276); (65296, 65305); (65313, 65338);
   (65345, 65370); (65382, 65470); (65474, 65479); (65482, 65487);
   (65490, 65495); (65498, 65500); (65536, 65547); (65549, 65574);
   (65576, 65594); (65596, 65597); (65599, 65613); (65616, 65629);
   (65664, 65786); (65799, 65843); (65856, 65912); (65930, 65931);
   (66176, 66204); (66208, 66256); (66273, 66299); (66304, 66339);
   (66349, 66378); (66384, 66421); (66432, 66461); (66464, 66499);
   (66504, 66511); (66513, 66517); (66560, 66717); (66720, 66729);
   (66736, 66771); (66776, 66811); (66816, 66855); (66864, 66915);
   (66928, 66938); (66940, 66954); (66956, 66962); (66964, 66965);
   (66967, 66977); (66979, 66993); (66995, 67001); (67003, 67004);
   (67072, 67382); (67392, 67413); (67424, 67431); (67456, 67461);
   (67463, 67504); (67506, 67514); (67584, 67589); (67592, 67592);
   (67594, 67637); (67639, 67640); (67644, 67644); (67647, 67669);
   (67672, 67702); (67705, 67742); (67751, 67759); (67808, 67826);
   (67828, 67829); (67835, 67867); (67872, 67897); (67968, 68023);
   (68028, 68047); (68050, 68096); (68112, 68115); (68117, 68119);
   (68121, 68149); (68160, 68168); (68192, 68222); (68224, 68255);
   (68288, 68295); (68297, 68324); (68331, 68335); (68352, 68405);
   (68416, 68437); (68440, 68466); (68472, 68497); (68521, 68527);
   (68608, 68680); (68736, 68786); (68800, 68850); (68858, 68899);
   (68912, 68921); (69216, 69246); (69248, 69289); (69296, 69297);
   (69376, 69415); (69424, 69445); (69457, 69460); (69488, 69505);
   (69552, 69579); (69600, 69622); (69635, 69687); (69714, 69743);
   (69745, 69746); (69749, 69749); (69763, 69807); (69840, 69864);
   (69872, 69881); (69891, 69926); (69942, 69951); (69956, 69956);
   (69959, 69959); (69968, 70002); (70006, 70006); (70019, 70066);
   (70081, 70084); (70096, 70106); (70108, 70108); (70113, 70132);
   (70144, 70161); (70163, 70187); (70272, 70278); (70280, 70280);
   (70282, 70285); (70287, 70301); (70303, 70312); (70320, 70366);
   (70384, 70393); (70405, 70412); (70415, 70416); (70419, 70440);
   (70442, 70448); (70450, 70451); (70453, 70457); (70461, 70461);
   (70480, 70480); (70493, 70497); (70656, 70708); (70727, 70730);
   (70736, 70745); (70751, 70753); (70784, 70831); (70852, 70853);
   (70855, 70855); (70864, 70873); (71040, 71086); (71128, 71131);
   (71168, 71215); (71236, 71236); (71248, 71257); (71296, 71338);
   (71352, 71352); (71360, 71369); (71424, 71450); (71472, 71483);
   (71488, 71494); (71680, 71723); (71840, 71922); (71935, 71942);
   (71945, 71945); (71948, 71955); (71957, 71958); (71960, 71983);
   (71999, 71999); (72001, 72001); (72016, 72025); (72096, 72103);
   (72106, 72144); (72161, 72161); (72163, 72163); (72192, 72192);
   (72203, 72242); (72250, 72250); (72272, 72272); (72284, 72329);
   (72349, 72349); (72368, 72440); (72704, 72712); (72714, 72750);
   (72768, 72768); (72784, 72812); (72818, 72847); (72960, 72966);
   (72968, 72969); (72971, 73008); (73030, 73030); (73040, 73049);
   (73056, 73061); (73063, 73064); (73066, 73097); (73112, 73112);
   (73120, 73129); (73440, 73458); (73648, 73648); (73664, 73684);
   (73728, 74649); (74752, 74862); (74880, 75075); (77712, 77808);
   (77824, 78894); (82944, 83526); (92160, 92728); (92736, 92766);
   (92768, 92777); (92784, 92862); (92864, 92873); (92880, 92909);
   (92928, 92975); (92992, 92995); (93008, 93017); (93019, 93025);
   (93027, 93047); (93053, 93071); (93760, 93846); (93952, 94026);
   (94032, 94032); (94099, 94111); (94176, 94177); (94179, 94179);
   (94208, 100343); (100352, 101589); (101632, 101640); (110576, 110579);
   (110581, 110587); (110589, 110590); (110592, 110882); (110928, 110930);
   (110948, 110951); (110960, 111355); (113664, 113770); (113776, 113788);
   (113792, 113800); (113808, 113817); (119520, 119539); (119648, 119672);
   (119808, 119892); (119894, 119964); (119966, 119967); (119970, 119970);
   (119973, 119974); (119977, 119980); (119982, 119993); (119995, 119995);
   (119997, 120003); (120005, 120069); (120071, 120074); (120077, 120084);
   (120086, 120092); (120094, 120121); (120123, 120126); (120128, 120132);
   (120134, 120134); (120138, 120144); (120146, 120485); (120488, 120512);
   (120514, 120538); (120540, 120570); (120572, 120596); (120598, 120628);
   (120630, 120654); (120656, 120686); (120688, 120712); (120714, 120744);
   (120746, 120770); (120772, 120779); (120782, 120831); (122624, 122654);
   (123136, 123180); (123191, 123197); (123200, 123209); (123214, 123214);
   (123536, 123565); (123584, 123627); (123632, 123641); (124896, 124902);
   (124904, 124907); (124909, 124910); (124912, 124926); (124928, 125124);
   (125127, 125135); (125184, 125251); (125259, 125259); (125264, 125273);
   (126065, 126123); (126125, 126127); (126129, 126132); (126209, 126253);
   (126255, 126269); (126464, 126467); (126469, 126495); (126497, 126498);
   (126500, 126500); (126503, 126503); (126505, 126514); (126516, 126519);
   (126521, 126521); (126523, 126523); (126530, 126530); (126535, 126535);
   (126537, 126537); (126539, 126539); (126541, 126543); (126545, 126546);
   (126548, 126548); (126551, 126551); (126553, 126553); (126555, 126555);
   (126557, 126557); (126559, 126559); (126561, 126562); (126564, 126564);
   (126567, 126570); (126572, 126578); (126580, 126583); (126585, 126588);
   (126590, 126590); (126592, 126601); (126603, 126619); (126625, 126627);
   (126629, 126633); (126635, 126651); (127232, 127244); (130032, 130041);
   (131072, 173791); (173824, 177976); (177984, 178205); (178208, 183969);
   (183984, 191456); (194560, 195101); (196608, 201546)]%N.

(** [\d] *)
Definition is_digit (c : char) : bool := in_ranges digit_ranges c.

(** [\w] *)
Definition is_word (c : char) : bool := in_ranges word_ranges c.

Arguments in_ranges : simpl never.
Arguments is_digit : simpl never.
Arguments is_word : simpl never.

Example classes_beyond_ascii :
  map is_word [226; 181; 1635; 95; 8364; 8211; 45]%N
  = [true; true; true; true; false; false; false]
  /\ map is_digit [57; 1635; 120782; 178; 65]%N
     = [true; true; true; false; false].
Proof. vm_compute. split; reflexivity. Qed.

(** A hexadecimal digit. *)
Definition is_hex (c : char) : bool :=
  (between 48 57 c || between 65 70 c || between 97 102 c)%N.

Inductive cclass :=
| Any            (* [.] under re.S *)
| NotNL          (* [.] without re.S *)
| Ch (c : char)  (* a literal character *)
| Space          (* \s *)
| Digit          (* \d *)
| Word           (* \w *)
| Hex.           (* [0-9A-Fa-f], in no pattern of the script *)

Definition in_class (k : cclass) (c : char) : bool :=
  match k with
  | Any => true
  | NotNL => negb (N.eqb c NL)
  | Ch x => N.eqb x c
  | Space => is_space c
  | Digit => is_digit c
  | Word => is_word c
  | Hex => is_hex c
  end.

(** ** Patterns *)

Inductive regex :=
| Eps
| One (k : cclass)
| Lit (s : str)
| Seq (r1 r2 : regex)
| Alt (r1 r2 : regex)
| Rep (k : cclass) (lo : nat) (hi : option nat) (greedy : bool)
| Grp (name : string) (r : regex)   (* (?P<name>r) *)
| Bol                               (* ^ under re.M *)
| Ahead (r : regex)                 (* (?=r) *)
| NotAhead (r : regex).             (* (?!r) *)

Declare Scope re_scope.
Delimit Scope re_scope with re.
Bind Scope re_scope with regex.
Notation "r1 >> r2" := (Seq r1 r2) (at level 61, right associativity) : re_scope.
Notation "r1 || r2" := (Alt r1 r2) : re_scope.

Definition star k := Rep k 0 None true.       (* k*  *)
Definition plus k := Rep k 1 None true.       (* k+  *)
Definition lazy k := Rep k 0 None false.      (* k*? *)
Definition atleast n k := Rep k n None true.  (* k{n,} *)
Definition range lo hi k := Rep k lo (Some hi) true. (* k{lo,hi} *)
Definition opt r := Alt r Eps.                (* r? *)
Definition txt (s : string) := Lit (u s).
Definition chr (c : char) := One (Ch c).

(** ** The matcher *)

(** Where the matcher stands: [pos] characters are behind it, [rest] is
    ahead, [bol] says that it is at the start of the text or just after a
    newline. *)
Record cursor := Cur { pos : nat; bol : bool; rest : str }.

Definition groups := list (string * str).

Fixpoint group (name : string) (g : groups) : option str :=
  match g with
  | [] => None
  | (n, v) :: g' => if String.eqb n name then Some v else group name g'
  end.

Definition advance (c : cursor) : list cursor :=
  match rest c with
  | [] => []
  | x :: t => [Cur (S (pos c)) (N.eqb x NL) t]
  end.

Fixpoint strip (p : str) (n : nat) (b : bool) (s : str) : option cursor :=
  match p with
  | [] => Some (Cur n b s)
  | x :: p' =>
      match s with
      | y :: s' => if N.eqb x y then strip p' (S n) (N.eqb y NL) s' else None
      | [] => None
      end
  end.

(** The cursors reached by taking 0, 1, 2, ... characters of class [k], at
    most [hi] of them. *)
Fixpoint runs (k : cclass) (hi : option nat) (n : nat) (b : bool) (s : str)
  : list cursor :=
  Cur n b s ::
  match s with
  | [] => []
  | x :: t =>
      if in_class k x then
        match hi with
        | Some 0 => []
        | Some (S h) => runs k (Some h) (S n) (N.eqb x NL) t
        | None => runs k None (S n) (N.eqb x NL) t
        end
      else []
  end.

Definition rep (k : cclass) (lo : nat) (hi : option nat) (greedy : bool)
  (c : cursor) : list cursor :=
  let l := skipn lo (runs k hi (pos c) (bol c) (rest c)) in
  if greedy then rev l else l.

(** Every way [r] matches from [c], first choice first. *)
Fixpoint matches (r : regex) (c : cursor) (g : groups)
  : list (cursor * groups) :=
  match r with
  | Eps => [(c, g)]
  | One k =>
      match rest c with
      | x :: _ => if in_class k x then map (fun c' => (c', g)) (advance c) else []
      | [] => []
      end
  | Lit s =>
      match strip s (pos c) (bol c) (rest c) with
      | Some c' => [(c', g)]
      | None => []
      end
  | Seq r1 r2 =>
      flat_map (fun cg => matches r2 (fst cg) (snd cg)) (matches r1 c g)
  | Alt r1 r2 => matches r1 c g ++ matches r2 c g
  | Rep k lo hi greedy => map (fun c' => (c', g)) (rep k lo hi greedy c)
  | Grp name r1 =>
      map (fun cg =>
             (fst cg, (name, firstn (pos (fst cg) - pos c) (rest c)) :: snd cg))
          (matches r1 c g)
  | Bol => if bol c then [(c, g)] else []
  | Ahead r1 =>
      match matches r1 c g with
      | cg :: _ => [(c, snd cg)]
      | [] => []
      end
  | NotAhead r1 =>
      match matches r1 c g with
      | [] => [(c, g)]
      | _ :: _ => []
      end
  end.

(** A match object: [m.start()], [m.end()] and the named groups. *)
Record rmatch := Match { m_start : nat; m_end : nat; m_groups : groups }.

Definition first_match (r : regex) (c : cursor) : option rmatch :=
  match matches r c [] with
  | (c', g) :: _ => Some (Match (pos c) (pos c') g)
  | [] => None
  end.

(** The cursor at index [n] of [s], if [n <= len(s)]. *)
Fixpoint cursor_from (n : nat) (b : bool) (s : str) (i : nat) {struct i}
  : option cursor :=
  match i with
  | 0 => Some (Cur n b s)
  | S i' =>
      match s with
      | [] => None
      | x :: t => cursor_from (S n) (N.eqb x NL) t i'
      end
  end.

Definition cursor_at (s : str) (i : nat) : option cursor :=
  cursor_from 0 true s i.

(** [regexp.match(s, i)] *)
Definition re_match (r : regex) (s : str) (i : nat) : option rmatch :=
  match cursor_at s i with
  | Some c => first_match r c
  | None => None
  end.

Fixpoint search_from (r : regex) (n : nat) (b : bool) (s : str)
  : option rmatch :=
  match first_match r (Cur n b s) with
  | Some m => Some m
  | None =>
      match s with
      | [] => None
      | x :: t => search_from r (S n) (N.eqb x NL) t
      end
  end.

(** [regexp.search(s, i)] *)
Definition re_search (r : regex) (s : str) (i : nat) : option rmatch :=
  match cursor_at s i with
  | Some c => search_from r (pos c) (bol c) (rest c)
  | None => None
  end.

(** ** The patterns of parse_trm_to_devregs.py *)

(** The three characters between the two numbers of a bit range, as the
    script stores them: U+00E2, U+20AC, U+201C. *)
Definition range_sep : str := [226; 8364; 8220]%N.

(** The en dash, U+2013. *)
Definition en_dash : char := 8211%N.

Definition four (k : cclass) : regex := (One k >> One k >> One k >> One k)%re.

(** [\d+\.\d+\.\d+\.\d+\s+] *)
Definition r_start : regex :=
  (plus Digit >> txt "." >> plus Digit >> txt "." >> plus Digit >> txt "."
   >> plus Digit >> plus Space)%re.

(** A word in parentheses: what follows [^.*?] in the name pattern. *)
Definition name_in_parentheses : regex :=
  (txt "(" >> Grp "rname" (plus Word) >> txt ")")%re.

(** [^.*?\((?P<rname>\w+)\)], re.M | re.S *)
Definition r_name : regex := (Bol >> lazy Any >> name_in_parentheses)%re.

(** What follows [\n\s*] in the address pattern. *)
Definition adr_tail : regex :=
  (txt "Address:" >> lazy Any >> txt "=" >> One Space
   >> Grp "a1" (four Any) >> txt "_" >> Grp "a2" (four Any) >> txt "h"
   >> chr NL)%re.

(** [\n\s*Address:.*?=\s(?P<a1>....)_(?P<a2>....)h\n], re.M | re.S | re.X *)
Definition r_adr : regex := (chr NL >> star Space >> adr_tail)%re.

(** The address line as the specification words it, with four hexadecimal
    digits on each side of the underscore; the script has [....] there. *)
Definition r_adr_as_specified : regex :=
  (chr NL >> star Space >> txt "Address:" >> lazy Any >> txt "=" >> One Space
   >> Grp "a1" (four Hex) >> txt "_" >> Grp "a2" (four Hex) >> txt "h"
   >> chr NL)%re.

(** [^.*?Reset.*?(0|1).*?Field\s+Description], re.M | re.S | re.X *)
Definition r_bitdescription : regex :=
  (Bol >> lazy Any >> txt "Reset" >> lazy Any >> (txt "0" || txt "1")
   >> lazy Any >> txt "Field" >> plus Space >> txt "Description")%re.

(** The page-break boilerplate, re.X only. *)
Definition r_pagebreak : regex :=
  (opt (atleast 14 Space >> star NotNL >> chr NL)
   >> atleast 20 Space >> txt "Table" >> One Space >> txt "continues"
   >> One Space >> txt "on" >> One Space >> txt "the" >> One Space
   >> txt "next" >> One Space >> txt "page" >> star NotNL >> chr NL
   >> atleast 20 Space >> star NotNL >> chr NL
   >> star NotNL >> txt "NXP" >> One Space >> txt "Semiconductors"
   >> star NotNL >> chr NL
   >> star NotNL >> chr NL
   >> star NotNL >> txt "continued" >> star NotNL >> chr NL
   >> star NotNL >> txt "Field" >> plus Space >> txt "Description")%re.

(** [\n\s{2,12}(?P<endbit>\d+)(<sep>(?P<startbit>\d+)|\s).*(?=\n)],
    re.M | re.X *)
Definition r_field : regex :=
  (chr NL >> range 2 12 Space >> Grp "endbit" (plus Digit)
   >> ((Lit range_sep >> Grp "startbit" (plus Digit)) || One Space)
   >> star NotNL >> Ahead (chr NL))%re.

Definition not_number_nor_Field : regex :=
  (NotAhead (plus Digit) >> NotAhead (txt "Field"))%re.

(** The three alternatives of the name line. *)
Definition fld_reserved : regex := (txt "-" || txt "Reserved")%re.

Definition fld_multi : regex :=
  (not_number_nor_Field
   >> Grp "fldname_multi"
        (plus Word >> txt "_" >> Ahead (One Space >> star NotNL >> chr NL)))%re.

Definition fld_solo : regex :=
  (not_number_nor_Field >> Grp "fldname_solo" (plus Word))%re.

(** The name line, re.M | re.X:
    [\n\s{0,13}(((-)|(Reserved))|
                ((?!\d+)(?!Field)(?P<fldname_multi>\w+_(?=\s.*\n)))|
                ((?!\d+)(?!Field)(?P<fldname_solo>\w+)))] *)
Definition r_fldname : regex :=
  (chr NL >> range 0 13 Space >> (fld_reserved || fld_multi || fld_solo))%re.

(** ** Python values used by the script *)

(** The value of a decimal digit: its place among the ten of its range. *)
Fixpoint digit_value_in (t : list (N * N)) (c : char) : option N :=
  match t with
  | [] => None
  | (lo, hi) :: t' =>
      if between lo hi c then Some ((c - lo) mod 10)%N
      else digit_value_in t' c
  end.

Definition digit_value (c : char) : option N := digit_value_in digit_ranges c.

Arguments digit_value : simpl never.

(** [int(s)] of a string of decimal digits; [None] where Python raises
    ValueError: at a character that is no digit and, in CPython 3.11, at
    more than 4300 digits ([sys.int_max_str_digits]). *)
Fixpoint int_acc (acc : Z) (s : str) : option Z :=
  match s with
  | [] => Some acc
  | c :: s' =>
      match digit_value c with
      | Some d => int_acc (10 * acc + Z.of_N d) s'
      | None => None
      end
  end.

Definition int (s : str) : option Z :=
  match s with
  | [] => None
  | _ :: _ => if 4300 <? length s then None else int_acc 0 s
  end.

Example int_examples :
  map int [u "31"; [1635; 49]%N; u "3a"; []]
  = [Some 31%Z; Some 31%Z; None; None].
Proof. vm_compute. reflexivity. Qed.

(** [str(z)] *)
Definition str_of_int (z : Z) : str := u (NilZero.string_of_int (Z.to_int z)).

(** Truth value of [m.group(..)] and of what [get_fldname] returns: [None],
    [False] and the empty string are false. *)
Definition truthy (o : option str) : bool :=
  match o with
  | Some (_ :: _) => true
  | _ => false
  end.

(** [str(x)] of a group that may be [None]. *)
Definition str_of_group (o : option str) : str :=
  match o with
  | Some v => v
  | None => u "None"
  end.

(** ** The interpreter state: the global [m] and what was printed *)

Inductive exn :=
| RuntimeError (msg : string)
| ValueError
| SystemExit      (* exit() *)
| OutOfFuel.      (* the model's recursion bound, never reached *)

Inductive res (A : Type) :=
| Val (a : A)
| Exn (e : exn).
Arguments Val {A} a.
Arguments Exn {A} e.

Record state := St { m : rmatch; stdout : list str }.

Definition M (A : Type) := state -> res A * state.

Definition ret {A} (a : A) : M A := fun s => (Val a, s).

Definition bind {A B} (c : M A) (k : A -> M B) : M B :=
  fun s =>
    match c s with
    | (Val a, s') => k a s'
    | (Exn e, s') => (Exn e, s')
    end.

Definition raise {A} (e : exn) : M A := fun s => (Exn e, s).

Definition print (line : str) : M unit :=
  fun s => (Val tt, St (m s) (stdout s ++ [line])).

Definition get_m : M rmatch := fun s => (Val (m s), s).

Definition set_m (x : rmatch) : M unit := fun s => (Val tt, St x (stdout s)).

Notation "x <- c ;; k" := (bind c (fun x => k))
  (at level 61, c at next level, right associativity).
Notation "c ;;; k" := (bind c (fun _ => k))
  (at level 61, right associativity).

(** ** parse_trm_to_devregs.py *)

Section Chapter.

(** The global [chapter] of the script. *)
Variable chapter : str.

(** Bound on the depth of [get_fldname] and on the turns of the field
    loop: each of them moves [m.end()] forward. *)
Definition fuel : nat := S (length chapter).

Definition get_nextm (regexp : regex) (is_search : bool) : M bool :=
  fun s =>
    let tmp :=
      if is_search then re_search regexp chapter (m_end (m s))
      else re_match regexp chapter (m_end (m s)) in
    match tmp with
    | Some t => (Val true, St t (stdout s))
    | None => (Val false, s)
    end.

(** [get_fldname(fieldname)]: [Some name] for a string, [None] for
    [False].  [n] bounds the nesting of the calls.  CPython bounds it too,
    by its recursion limit (1000 frames unless it is changed), and ends a
    deeper nesting with RecursionError; that limit is no part of this
    model, which describes the runs that stay below it. *)
Fixpoint get_fldname_rec (n : nat) (fieldname : str) : M (option str) :=
  match n with
  | 0 => raise OutOfFuel
  | S n' =>
      _ <- get_nextm r_pagebreak false ;;
      ret_ <- get_nextm r_fldname true ;;
      if negb ret_ then raise (RuntimeError "cannot find fldname")
      else
        mm <- get_m ;;
        if truthy (group "fldname_solo" (m_groups mm)) then
          ret (Some (fieldname
                       ++ str_of_group (group "fldname_solo" (m_groups mm))))
        else if truthy (group "fldname_multi" (m_groups mm)) then
          get_fldname_rec n'
            (fieldname ++ str_of_group (group "fldname_multi" (m_groups mm)))
        else ret None
  end.

Definition get_fldname (fieldname : str) : M (option str) :=
  get_fldname_rec fuel fieldname.

(** The locals [eb], [sb] and [field] of the main loop. *)
Record bits := Bits { eb : option str; sb : option str; field : option str }.

Definition field_line (fieldname fld : str) : str :=
  [TAB] ++ u ":" ++ fieldname ++ u ":" ++ fld.

(** [while get_nextm(r_field): ...].  The group [endbit] takes part in
    every match of [r_field], so [eb] is a string where it is joined to
    [sb]. *)
Fixpoint field_loop (n : nat) (b : bits) : M bits :=
  match n with
  | 0 => raise OutOfFuel
  | S n' =>
      more <- get_nextm r_field true ;;
      if negb more then ret b
      else
        mm <- get_m ;;
        let eb' := group "endbit" (m_groups mm) in
        let sb' := group "startbit" (m_groups mm) in
        let field' :=
          match sb' with
          | Some s => str_of_group eb' ++ u "-" ++ s
          | None => str_of_group eb'
          end in
        fieldname <- get_fldname [] ;;
        (if truthy fieldname
         then print (field_line (str_of_group fieldname) field')
         else ret tt) ;;;
        field_loop n' (Bits eb' sb' (Some field'))
  end.

(** [field is not None and "-0" in field or "0" is field].  CPython keeps
    one object per one-character string, so [is] holds exactly when
    [field] is the string "0". *)
Definition range_reaches_zero (fld : option str) : bool :=
  match fld with
  | Some f => contains (u "-0") f || str_eqb (u "0") f
  | None => false
  end.

Definition minus_one_to_zero (s : str) : M str :=
  match int s with
  | Some z => ret (str_of_int (z - 1) ++ u "-" ++ u "0")
  | None => raise ValueError
  end.

(** Lines 167 to 174: the range given to the last name. *)
Definition ending_field (b : bits) : M str :=
  match sb b with
  | Some s => minus_one_to_zero s
  | None =>
      match eb b with
      | Some e => minus_one_to_zero e
      | None =>
          match sb b, eb b with
          | None, None => ret (u "31" ++ u "-" ++ u "0")
          | _, _ => ret (u "0")
          end
      end
  end.

(** Lines 160 to 177, after the field loop. *)
Definition trailing_field (b : bits) : M unit :=
  if range_reaches_zero (field b) then ret tt
  else
    ending_fieldname <- get_fldname [] ;;
    if negb (truthy ending_fieldname) then ret tt
    else
      fld <- ending_field b ;;
      match fld with
      | [] => ret tt
      | _ :: _ => print (field_line (str_of_group ending_fieldname) fld)
      end.

Definition register_line (regname address : str) : str :=
  let space :=
    [TAB] ++ (if length regname <? 16 then [TAB] else [])
          ++ (if length regname <? 8 then [TAB] else []) in
  regname ++ space ++ address.

(** The address part of the body, lines 117 to 123. *)
Definition get_address : M str :=
  found <- get_nextm r_adr true ;;
  if negb found then ret (u "FIXME")
  else
    mm <- get_m ;;
    ret (u "0x" ++ str_of_group (group "a1" (m_groups mm))
                ++ str_of_group (group "a2" (m_groups mm))).

(** Lines 135 to 177: the field table of the register. *)
Definition field_table : M unit :=
  found <- get_nextm r_bitdescription true ;;
  if negb found then raise (RuntimeError "no bitdescription found")
  else
    b <- field_loop fuel (Bits None None None) ;;
    trailing_field b.

(** The body of [for chapter in chapters], after the name was matched. *)
Definition register (m0 : rmatch) : M unit :=
  set_m m0 ;;;
  let regname := str_of_group (group "rname" (m_groups m0)) in
  address <- get_address ;;
  print (register_line regname address) ;;;
  field_table.

Definition body : M unit :=
  match re_match r_name chapter 0 with
  | None => raise SystemExit
  | Some m0 => register m0
  end.

End Chapter.

(** [for chapter in chapters: ...] *)
Fixpoint for_chapters (chapters : list str) : M unit :=
  match chapters with
  | [] => ret tt
  | chapter :: more => body chapter ;;; for_chapters more
  end.

(** [regexp.split(s)] for a pattern without numbered groups that never
    matches the empty string: [piece] holds, reversed, the characters since
    the last separator. *)
Fixpoint split_from (r : regex) (n : nat) (s : str) (b : bool) (skip : nat)
  (piece : str) : list str :=
  match s with
  | [] => [rev piece]
  | x :: t =>
      match skip with
      | S k => split_from r (S n) t (N.eqb x NL) k piece
      | 0 =>
          match first_match r (Cur n b s) with
          | Some mt =>
              rev piece
              :: split_from r (S n) t (N.eqb x NL)
                   (m_end mt - m_start mt - 1) []
          | None => split_from r (S n) t (N.eqb x NL) 0 (x :: piece)
          end
      end
  end.

Definition re_split (r : regex) (s : str) : list str :=
  split_from r 0 s true 0 [].

(** How a run ends. *)
Inductive outcome := Finished | Stopped (e : exn).

(** The script from the text of the pages on: what it prints and how it
    ends. *)
Definition main (text : str) : list str * outcome :=
  let chapters := tl (re_split r_start text) in
  match for_chapters chapters (St (Match 0 0 []) []) with
  | (Val _, s) => (stdout s, Finished)
  | (Exn e, s) => (stdout s, Stopped e)
  end.

(** ** svd2devregs.py: the lines of the fields of a register *)

Module Svd.

Record svd_field := Field { name : str; bit_offset : Z; bit_width : Z }.

(** What the loop over [register.fields] writes for one field. *)
Definition field_text (peripheral : str) (f : svd_field) : str :=
  if (bit_width f >? 1)%Z then
    [TAB] ++ u ":" ++ peripheral ++ u "_" ++ name f ++ u ":"
          ++ str_of_int (bit_offset f) ++ u "-"
          ++ str_of_int (bit_offset f + bit_width f - 1) ++ [NL]
  else
    [TAB] ++ u ":" ++ peripheral ++ u "_" ++ name f ++ u ":"
          ++ str_of_int (bit_offset f) ++ [NL].

Definition fields_text (peripheral : str) (fields : list svd_field) : str :=
  concat (map (field_text peripheral) fields).

End Svd.

(** Lines of a text, each ended by a newline. *)
Fixpoint text_of (lines : list str) : str :=
  match lines with
  | [] => []
  | l :: ls => l ++ NL :: text_of ls
  end.

(** * Properties of the matcher *)

Definition is_prefix_step (c c' : cursor) (p : str) : Prop :=
  rest c = p ++ rest c' /\ pos c' = pos c + length p.

Lemma strip_spec (p : str) : forall n b s c,
  strip p n b s = Some c -> s = p ++ rest c /\ pos c = n + length p.
Proof.
  induction p as [|x p IH]; simpl; intros n b s c H.
  - inversion H; subst; simpl. split; [reflexivity | lia].
  - destruct s as [|y s]; [discriminate|].
    destruct (N.eqb x y) eqn:E; [|discriminate].
    apply N.eqb_eq in E; subst y.
    apply IH in H. destruct H as [H1 H2]. split.
    + now rewrite H1 at 1.
    + lia.
Qed.

Lemma runs_spec (k : cclass) : forall s hi n b c,
  In c (runs k hi n b s) ->
  exists p, s = p ++ rest c /\ pos c = n + length p
            /\ Forall (fun x => in_class k x = true) p.
Proof.
  induction s as [|x t IH]; intros hi n b c H.
  - simpl in H. destruct H as [H|[]]; subst. exists []. simpl.
    repeat split; auto.
  - simpl in H. destruct H as [H|H].
    + subst. exists []. simpl. repeat split; auto.
    + destruct (in_class k x) eqn:E; [|contradiction].
      assert (exists hi', In c (runs k hi' (S n) (N.eqb x NL) t)) as [hi' H'].
      { destruct hi as [[|h]|]; [contradiction| |]; eauto. }
      apply IH in H'. destruct H' as (p & H1 & H2 & H3).
      exists (x :: p). simpl. repeat split.
      * now rewrite H1 at 1.
      * lia.
      * constructor; assumption.
Qed.

Lemma runs_length (k : cclass) : forall s hi n b i c,
  nth_error (runs k hi n b s) i = Some c -> pos c = n + i.
Proof.
  induction s as [|x t IH]; intros hi n b i c H.
  - destruct i as [|i]; simpl in H.
    + inversion H; subst; simpl; lia.
    + destruct i; discriminate.
  - destruct i as [|i]; simpl in H.
    + inversion H; subst; simpl; lia.
    + destruct (in_class k x); [|destruct i; discriminate].
      destruct hi as [[|h]|]; [destruct i; discriminate| |];
        apply IH in H; lia.
Qed.

Lemma rep_spec k lo hi greedy c c' :
  In c' (rep k lo hi greedy c) ->
  exists p, is_prefix_step c c' p /\ lo <= length p
            /\ Forall (fun x => in_class k x = true) p.
Proof.
  unfold rep. intros H.
  assert (In c' (skipn lo (runs k hi (pos c) (bol c) (rest c)))) as H'.
  { destruct greedy; [now apply in_rev|assumption]. }
  clear H.
  destruct (In_nth_error _ _ H') as [i Hi].
  rewrite nth_error_skipn in Hi.
  pose proof (runs_length _ _ _ _ _ _ _ Hi) as Hp.
  apply nth_error_In in Hi. apply runs_spec in Hi.
  destruct Hi as (p & H1 & H2 & H3).
  exists p. unfold is_prefix_step. repeat split; auto. lia.
Qed.

(** The fewest characters a match of [r] takes. *)
Fixpoint min_len (r : regex) : nat :=
  match r with
  | Eps | Bol | Ahead _ | NotAhead _ => 0
  | One _ => 1
  | Lit s => length s
  | Seq r1 r2 => min_len r1 + min_len r2
  | Alt r1 r2 => Nat.min (min_len r1) (min_len r2)
  | Rep _ lo _ _ => lo
  | Grp _ r1 => min_len r1
  end.

(** A match takes a prefix of what is ahead, of at least [min_len]
    characters. *)
Lemma matches_spec (r : regex) : forall c g c' g',
  In (c', g') (matches r c g) ->
  exists p, is_prefix_step c c' p /\ min_len r <= length p.
Proof.
  unfold is_prefix_step.
  induction r; simpl; intros c g c' g' H.
  - destruct H as [H|[]]. inversion H; subst. exists []; simpl.
    repeat split; auto.
  - destruct c as [n b [|x t]]; simpl in *; [contradiction|].
    destruct (in_class k x); [|contradiction].
    destruct H as [H|[]]. inversion H; subst; simpl.
    exists [x]; simpl. repeat split; auto. lia.
  - destruct (strip s (pos c) (bol c) (rest c)) eqn:E; [|contradiction].
    destruct H as [H|[]]. inversion H; subst.
    apply strip_spec in E. destruct E. exists s. repeat split; auto.
  - apply in_flat_map in H. destruct H as ([c1 g1] & H1 & H2). simpl in H2.
    apply IHr1 in H1. apply IHr2 in H2.
    destruct H1 as (p1 & [A1 B1] & C1). destruct H2 as (p2 & [A2 B2] & C2).
    exists (p1 ++ p2). rewrite length_app. repeat split.
    + rewrite A1, A2. now rewrite app_assoc.
    + lia.
    + lia.
  - apply in_app_or in H. destruct H as [H|H]; [apply IHr1 in H|apply IHr2 in H];
      destruct H as (p & A & B); exists p; split; auto; lia.
  - apply in_map_iff in H. destruct H as (c0 & H0 & H). inversion H0; subst.
    apply rep_spec in H. destruct H as (p & A & B & _). exists p. auto.
  - apply in_map_iff in H. destruct H as ([c0 g0] & H0 & H). inversion H0; subst.
    simpl. apply IHr in H. exact H.
  - destruct (bol c); [|contradiction]. destruct H as [H|[]].
    inversion H; subst. exists []; simpl. repeat split; auto.
  - destruct (matches r c g) as [|cg l]; [contradiction|].
    destruct H as [H|[]]. inversion H; subst. exists []; simpl.
    repeat split; auto.
  - destruct (matches r c g) as [|cg l]; [|contradiction].
    destruct H as [H|[]]. inversion H; subst. exists []; simpl.
    repeat split; auto.
Qed.

Lemma first_match_spec r c mt :
  first_match r c = Some mt ->
  m_start mt = pos c /\ pos c + min_len r <= m_end mt
  /\ m_end mt <= pos c + length (rest c).
Proof.
  unfold first_match. destruct (matches r c []) as [|[c' g'] l] eqn:E;
    [discriminate|].
  intros H. inversion H; subst; simpl.
  assert (In (c', g') (matches r c [])) as Hin by (rewrite E; now left).
  apply matches_spec in Hin. destruct Hin as (p & [A B] & C).
  rewrite A, length_app. lia.
Qed.

Lemma cursor_from_spec s : forall n b i c,
  cursor_from n b s i = Some c ->
  pos c = n + i /\ i + length (rest c) = length s.
Proof.
  induction s as [|x t IH]; intros n b [|i] c H; simpl in H;
    try discriminate; try (inversion H; subst; simpl; lia).
  apply IH in H. simpl. lia.
Qed.

Lemma search_from_spec r : forall s n b mt,
  search_from r n b s = Some mt ->
  n <= m_start mt /\ m_start mt + min_len r <= m_end mt
  /\ m_end mt <= n + length s.
Proof.
  induction s as [|x t IH]; intros n b mt H; simpl in H.
  - destruct (first_match r (Cur n b [])) eqn:E; [|discriminate].
    inversion H; subst. apply first_match_spec in E. simpl in *. lia.
  - destruct (first_match r (Cur n b (x :: t))) eqn:E.
    + inversion H; subst. apply first_match_spec in E. simpl in *. lia.
    + apply IH in H. simpl. lia.
Qed.

Lemma re_search_spec r s i mt :
  re_search r s i = Some mt ->
  i <= m_start mt /\ m_start mt + min_len r <= m_end mt
  /\ m_end mt <= length s.
Proof.
  unfold re_search, cursor_at. destruct (cursor_from 0 true s i) eqn:E;
    [|discriminate].
  intros H. apply search_from_spec in H. apply cursor_from_spec in E. lia.
Qed.

Lemma re_match_spec r s i mt :
  re_match r s i = Some mt ->
  i = m_start mt /\ m_start mt + min_len r <= m_end mt
  /\ m_end mt <= length s.
Proof.
  unfold re_match, cursor_at. destruct (cursor_from 0 true s i) eqn:E;
    [|discriminate].
  intros H. apply first_match_spec in H. apply cursor_from_spec in E. lia.
Qed.

(** * Properties of the scanner *)

(** [s'] comes after [s]: the cursor did not move back and nothing printed
    was taken back. *)
Definition extends (s s' : state) : Prop :=
  m_end (m s) <= m_end (m s') /\ exists l, stdout s' = stdout s ++ l.

Lemma extends_refl s : extends s s.
Proof. split; [lia|]. exists []. now rewrite app_nil_r. Qed.

Lemma extends_trans s1 s2 s3 : extends s1 s2 -> extends s2 s3 -> extends s1 s3.
Proof.
  intros [A [l1 B]] [C [l2 D]]. split; [lia|].
  exists (l1 ++ l2). now rewrite D, B, app_assoc.
Qed.

Lemma extends_print s line : extends s (St (m s) (stdout s ++ [line])).
Proof. split; simpl; [lia|]. now exists [line]. Qed.

Definition lookup (chapter : str) (regexp : regex) (is_search : bool)
  (i : nat) : option rmatch :=
  if is_search then re_search regexp chapter i else re_match regexp chapter i.

Lemma lookup_spec chapter regexp is_search i t :
  lookup chapter regexp is_search i = Some t ->
  i <= m_start t /\ m_start t + min_len regexp <= m_end t
  /\ m_end t <= length chapter.
Proof.
  unfold lookup. destruct is_search; intros H.
  - now apply re_search_spec in H.
  - apply re_match_spec in H. lia.
Qed.

Section ChapterFacts.

Variable chapter : str.

Lemma get_nextm_eq regexp is_search s :
  get_nextm chapter regexp is_search s =
  match lookup chapter regexp is_search (m_end (m s)) with
  | Some t => (Val true, St t (stdout s))
  | None => (Val false, s)
  end.
Proof. unfold get_nextm, lookup. now destruct is_search. Qed.

Lemma get_nextm_cases regexp is_search s :
  (exists t,
      get_nextm chapter regexp is_search s = (Val true, St t (stdout s))
      /\ lookup chapter regexp is_search (m_end (m s)) = Some t
      /\ m_end (m s) <= m_start t
      /\ m_start t + min_len regexp <= m_end t
      /\ m_end t <= length chapter)
  \/ (get_nextm chapter regexp is_search s = (Val false, s)
      /\ lookup chapter regexp is_search (m_end (m s)) = None).
Proof.
  rewrite get_nextm_eq.
  destruct (lookup chapter regexp is_search (m_end (m s))) as [t|] eqn:E.
  - left. exists t. apply lookup_spec in E. repeat split; auto; lia.
  - right. auto.
Qed.

Lemma get_nextm_extends regexp is_search s b s' :
  get_nextm chapter regexp is_search s = (b, s') ->
  extends s s' /\ stdout s' = stdout s.
Proof.
  destruct (get_nextm_cases regexp is_search s)
    as [(t & E & _ & A & B & _)|[E _]]; rewrite E; intros H;
    inversion H; subst.
  - split; [|reflexivity]. split; simpl; [lia|]. exists [].
    now rewrite app_nil_r.
  - split; [apply extends_refl|reflexivity].
Qed.

Definition fldname_error : exn := RuntimeError "cannot find fldname".

Lemma min_len_r_fldname : min_len r_fldname = 2.
Proof. reflexivity. Qed.

Lemma min_len_r_field : min_len r_field = 5.
Proof. reflexivity. Qed.

(** [get_fldname] prints nothing, moves the cursor forward only and, with
    fuel beyond what is left of the chapter, ends by itself: in a value or
    in its own error. *)
Lemma get_fldname_rec_spec : forall n fieldname s r s',
  get_fldname_rec chapter n fieldname s = (r, s') ->
  length chapter - m_end (m s) < n ->
  m_end (m s) <= m_end (m s') /\ stdout s' = stdout s
  /\ match r with Val _ => True | Exn e => e = fldname_error end.
Proof.
  induction n as [|n IH]; intros fieldname s r s' H Hn; [lia|].
  - simpl in H. unfold bind at 1 in H.
    destruct (get_nextm chapter r_pagebreak false s) as [r1 s1] eqn:E1.
    pose proof (get_nextm_extends _ _ _ _ _ E1) as [[X1 _] Y1].
    rewrite get_nextm_eq in E1.
    assert (exists b1, r1 = Val b1) as [b1 ->].
    { destruct (lookup chapter r_pagebreak false (m_end (m s)));
        inversion E1; eauto. }
    clear E1. unfold bind at 1 in H.
    destruct (get_nextm_cases r_fldname true s1)
      as [(t & E & _ & A & B & C)|[E _]]; rewrite E in H; simpl in H.
    + rewrite min_len_r_fldname in B. unfold bind, get_m in H. simpl in H.
      destruct (truthy (group "fldname_solo" (m_groups t))).
      * inversion H; subst; simpl. repeat split; auto; lia.
      * destruct (truthy (group "fldname_multi" (m_groups t))).
        -- apply IH in H; simpl in *; [|lia].
           destruct H as (P & Q & R). repeat split; auto; try lia.
           congruence.
        -- inversion H; subst; simpl. repeat split; auto; lia.
    + inversion H; subst. repeat split; auto.
Qed.

Lemma get_fldname_spec fieldname s r s' :
  get_fldname chapter fieldname s = (r, s') ->
  m_end (m s) <= m_end (m s') /\ stdout s' = stdout s
  /\ match r with Val _ => True | Exn e => e = fldname_error end.
Proof.
  intros H. apply get_fldname_rec_spec in H; [assumption|].
  unfold fuel. lia.
Qed.

(** The field loop ends by itself too, and only [get_fldname] can stop
    it with an error. *)
Lemma field_loop_spec : forall n b s r s',
  field_loop chapter n b s = (r, s') ->
  length chapter - m_end (m s) < n ->
  extends s s'
  /\ match r with Val _ => True | Exn e => e = fldname_error end.
Proof.
  induction n as [|n IH]; intros b s r s' H Hn; [lia|].
  simpl in H. unfold bind at 1 in H.
  destruct (get_nextm_cases r_field true s)
    as [(t & E & _ & A & B & C)|[E _]]; rewrite E in H; simpl in H.
  - rewrite min_len_r_field in B.
    unfold bind at 1 in H. unfold get_m in H. simpl in H.
    unfold bind at 1 in H.
    destruct (get_fldname chapter [] (St t (stdout s))) as [r1 s1] eqn:E1.
    apply get_fldname_spec in E1. simpl in E1. destruct E1 as (P & Q & R).
    assert (extends s s1) as X1.
    { split; [lia|]. exists []. now rewrite app_nil_r. }
    destruct r1 as [fieldname|e].
    + unfold bind at 1 in H.
      destruct (truthy fieldname); simpl in H.
      * apply IH in H; [|simpl; lia]. destruct H as [X Y].
        split; [|assumption].
        eapply extends_trans; [exact X1|].
        eapply extends_trans; [apply extends_print|exact X].
      * apply IH in H; [|simpl; lia]. destruct H as [X Y].
        split; [|assumption]. eapply extends_trans; eassumption.
    + inversion H; subst. split; [assumption|reflexivity].
  - inversion H; subst. split; [apply extends_refl|exact I].
Qed.

Lemma ending_field_spec b s r s' :
  ending_field b s = (r, s') ->
  s' = s /\ match r with Val _ => True | Exn e => e = ValueError end.
Proof.
  unfold ending_field, minus_one_to_zero, ret, raise.
  destruct (sb b) as [l|]; [destruct (int l)|];
    [| |destruct (eb b) as [h|]; [destruct (int h)|]];
    intros H; inversion H; subst; auto.
Qed.

Lemma trailing_field_spec b s r s' :
  trailing_field chapter b s = (r, s') ->
  extends s s'
  /\ match r with
     | Val _ => True
     | Exn e => e = fldname_error \/ e = ValueError
     end.
Proof.
  unfold trailing_field.
  destruct (range_reaches_zero (field b)).
  { intros H; inversion H; subst. split; [apply extends_refl|exact I]. }
  unfold bind at 1.
  destruct (get_fldname chapter [] s) as [r1 s1] eqn:E1.
  apply get_fldname_spec in E1. destruct E1 as (P & Q & R).
  assert (extends s s1) as X1.
  { split; [lia|]. exists []. now rewrite Q, app_nil_r. }
  destruct r1 as [name|e].
  - destruct (truthy name); simpl.
    + unfold bind.
      destruct (ending_field b s1) as [r2 s2] eqn:E2.
      apply ending_field_spec in E2. destruct E2 as [-> R2].
      destruct r2 as [[|x fld]|e]; intros H; inversion H; subst.
      * split; [assumption|exact I].
      * split; [|exact I].
        eapply extends_trans; [exact X1|apply extends_print].
      * split; auto.
    + intros H; inversion H; subst. split; [assumption|exact I].
  - intros H; inversion H; subst. split; auto.
Qed.

Definition bitdescription_error : exn :=
  RuntimeError "no bitdescription found".

Lemma get_address_spec s r s' :
  get_address chapter s = (r, s') ->
  m_end (m s) <= m_end (m s') /\ stdout s' = stdout s
  /\ exists address, r = Val address.
Proof.
  unfold get_address, bind.
  destruct (get_nextm_cases r_adr true s)
    as [(t & E & _ & A & B & C)|[E _]]; rewrite E; simpl;
    intros H; inversion H; subst; simpl; repeat split; eauto; lia.
Qed.

(** Once the name is matched the register line is printed, whatever
    happens next in the chapter. *)
Lemma register_spec m0 s r s' :
  register chapter m0 s = (r, s') ->
  exists address tail,
    stdout s' =
      stdout s
      ++ register_line (str_of_group (group "rname" (m_groups m0))) address
      :: tail
    /\ match r with
       | Val _ => True
       | Exn e =>
           (e = bitdescription_error /\ tail = [])
           \/ e = fldname_error \/ e = ValueError
       end.
Proof.
  unfold register, field_table. unfold bind at 1. unfold set_m at 1.
  unfold bind at 1.
  destruct (get_address chapter (St m0 (stdout s))) as [ra sa] eqn:Ea.
  apply get_address_spec in Ea. simpl in Ea.
  destruct Ea as (_ & Q & address & ->).
  unfold bind at 1. unfold print at 1.
  unfold bind at 1.
  destruct (get_nextm_cases r_bitdescription true
              (St (m sa) (stdout sa ++
                 [register_line (str_of_group (group "rname" (m_groups m0)))
                    address])))
    as [(t & E & _ & A & B & C)|[E _]]; rewrite E; cbv beta iota;
    unfold negb.
  - unfold bind.
    match goal with
    | |- context [field_loop chapter ?n ?b ?st] =>
        destruct (field_loop chapter n b st) as [rl sl] eqn:El
    end.
    apply field_loop_spec in El; [|unfold fuel; simpl; lia].
    destruct El as [[_ [l1 X]] R]. simpl in X.
    destruct rl as [b|e].
    + intros H. apply trailing_field_spec in H.
      destruct H as [[_ [l2 Y]] R2].
      exists address, (l1 ++ l2). split.
      * rewrite Y, X, Q. now rewrite <- !app_assoc.
      * destruct r; auto.
    + intros H; inversion H; subst.
      exists address, l1. split.
      * rewrite X, Q. now rewrite <- !app_assoc.
      * auto.
  - intros H; inversion H; subst; simpl.
    exists address, []. rewrite Q. split; auto.
Qed.

End ChapterFacts.

(** * The run over the chapters *)

Lemma for_chapters_app (before after : list str) : forall s,
  for_chapters (before ++ after) s =
  match for_chapters before s with
  | (Val _, s1) => for_chapters after s1
  | (Exn e, s1) => (Exn e, s1)
  end.
Proof.
  induction before as [|c before IH]; intros s; simpl; [reflexivity|].
  unfold bind. destruct (body c s) as [[[]|e] s1]; [apply IH|reflexivity].
Qed.

(** A chapter with a register, and one without any word in parentheses. *)
Definition chapter_regb : str :=
  text_of [u "Some Register (REGB)";
           u " Address: Base = 0000_0010h";
           u " Reset 0 Field Description";
           u "  31" ++ range_sep ++ u "16 control";
           u "  CTRL";
           u "  15" ++ range_sep ++ u "1 status";
           u "  STATUS";
           u "  LAST"].

Definition chapter_prose : str :=
  text_of [u "Revision history"; u " see (table 3) for the changes"].

Definition state0 : state := St (Match 0 0 []) [].

(** ** The cursor *)

(** A run of [get_nextm] calls in one chapter: the matches found, in the
    order in which they became [m]. *)
Fixpoint scan (chapter : str) (calls : list (regex * bool)) (s : state)
  : list rmatch :=
  match calls with
  | [] => []
  | (regexp, is_search) :: more =>
      match get_nextm chapter regexp is_search s with
      | (Val true, s') => m s' :: scan chapter more s'
      | (_, s') => scan chapter more s'
      end
  end.

(** Each match of the list starts at or after [e], the end of the one
    before it. *)
Inductive forward : nat -> list rmatch -> Prop :=
| forward_nil e : forward e []
| forward_cons e t l :
    e <= m_start t -> m_start t <= m_end t -> forward (m_end t) l ->
    forward e (t :: l).

(** C7: the cursor only moves forward.  In any run of [get_nextm] calls
    over a chapter every match found starts at or after the end of the match
    before it, and one call either fails and leaves the state as it was, or
    finds a match that starts at or after the old end. *)
Theorem cursor_is_monotone
  (chapter : str) (calls : list (regex * bool)) (regexp : regex)
  (is_search : bool) (s : state) :
  forward (m_end (m s)) (scan chapter calls s)
  /\ (get_nextm chapter regexp is_search s = (Val false, s)
      \/ exists t,
           get_nextm chapter regexp is_search s = (Val true, St t (stdout s))
           /\ m_end (m s) <= m_start t /\ m_start t <= m_end t).
Proof.
  split.
  - revert s. induction calls as [|[r b] calls IH]; intros s; simpl.
    + constructor.
    + destruct (get_nextm_cases chapter r b s)
        as [(t & E & _ & A & B & _)|[E _]]; rewrite E; simpl.
      * constructor; [assumption|lia|apply (IH (St t (stdout s)))].
      * apply IH.
  - destruct (get_nextm_cases chapter regexp is_search s)
      as [(t & E & _ & A & B & _)|[E _]]; [right|left; assumption].
    exists t. repeat split; [assumption|assumption|lia].
Qed.

(** ** Errors come after the register line *)

(** C9: output is written as the run goes.  When the run stops with a
    RuntimeError, the chapters before the failing one were processed in
    full, and what has been printed is their output, then the register line
    of the failing chapter, then (for the error of [get_fldname] only) the
    field lines found so far; for "no bitdescription found" the register
    line is the last line printed. *)
Theorem error_leaves_the_register_line
  (chapters : list str) (s s' : state) (msg : string) :
  for_chapters chapters s = (Exn (RuntimeError msg), s') ->
  exists before chapter after s1 m0 address fields,
    chapters = before ++ chapter :: after
    /\ for_chapters before s = (Val tt, s1)
    /\ re_match r_name chapter 0 = Some m0
    /\ stdout s' =
         stdout s1
         ++ register_line (str_of_group (group "rname" (m_groups m0))) address
         :: fields
    /\ ((msg = "no bitdescription found"%string /\ fields = [])
        \/ msg = "cannot find fldname"%string).
Proof.
  revert s. induction chapters as [|c chapters IH]; intros s H; simpl in H.
  - discriminate.
  - unfold bind in H. destruct (body c s) as [[[]|e] s1] eqn:E.
    + apply IH in H.
      destruct H as (before & chapter & after & s2 & m0 & address & fields
                     & H1 & H2 & H3 & H4 & H5).
      exists (c :: before), chapter, after, s2, m0, address, fields.
      repeat split; auto.
      * simpl. now rewrite H1.
      * simpl. unfold bind. now rewrite E.
    + inversion H; subst. unfold body in E.
      destruct (re_match r_name c 0) as [m0|] eqn:Hname; [|discriminate].
      apply register_spec in E. destruct E as (address & fields & E1 & E2).
      exists [], c, chapters, s, m0, address, fields.
      repeat split; auto.
      destruct E2 as [[E2 E3]|[E2|E2]].
      * left. inversion E2. auto.
      * right. inversion E2. auto.
      * discriminate.
Qed.

(** A chapter with a register line and no field table, and one whose bit
    range has no name line after it. *)
Definition chapter_no_table : str :=
  text_of [u "Plain Register (REGP)"; u " some text"].

Definition chapter_no_name_line : str :=
  text_of [u "Odd Register (REGO)";
           u "Reset 0 Field  Description";
           u "  7 enable"].

Lemma error_leaves_the_register_line_witness :
  exists before chapter after s1 m0 address fields,
    [chapter_regb; chapter_no_table; chapter_regb]
      = before ++ chapter :: after
    /\ for_chapters before state0 = (Val tt, s1)
    /\ re_match r_name chapter 0 = Some m0
    /\ stdout (snd (for_chapters
                      [chapter_regb; chapter_no_table; chapter_regb] state0)) =
         stdout s1
         ++ register_line (str_of_group (group "rname" (m_groups m0))) address
         :: fields
    /\ (("no bitdescription found"%string = "no bitdescription found"%string
         /\ fields = [])
        \/ "no bitdescription found"%string = "cannot find fldname"%string).
Proof.
  apply (@error_leaves_the_register_line
           [chapter_regb; chapter_no_table; chapter_regb] state0).
  vm_compute. reflexivity.
Defined.

(** ** The field after the last bit range *)

Lemma contains_app_r (sub a : str) : forall b,
  contains sub a = true -> contains sub (b ++ a) = true.
Proof.
  induction b as [|x b IH]; intros H; simpl; [assumption|].
  rewrite (IH H). apply orb_true_r.
Qed.

Lemma range_reaches_zero_pair (high : str) :
  range_reaches_zero (Some (high ++ u "-" ++ u "0")) = true.
Proof.
  unfold range_reaches_zero. apply orb_true_iff. left.
  apply contains_app_r. reflexivity.
Qed.

Lemma truthy_some (name : str) : name <> [] -> truthy (Some name) = true.
Proof. destruct name; [congruence|reflexivity]. Qed.

Lemma trailing_field_named chapter b s s1 name fld :
  range_reaches_zero (field b) = false ->
  get_fldname chapter [] s = (Val (Some name), s1) ->
  name <> [] ->
  ending_field b s1 = (Val fld, s1) ->
  fld <> [] ->
  trailing_field chapter b s =
    (Val tt, St (m s1) (stdout s1 ++ [field_line name fld])).
Proof.
  intros Hz Hname Hne Hfld Hfne. unfold trailing_field. rewrite Hz.
  unfold bind at 1. rewrite Hname. rewrite (truthy_some _ Hne). simpl.
  unfold bind. rewrite Hfld. destruct fld; [congruence|reflexivity].
Qed.

Lemma minus_one_to_zero_val (t : str) (z : Z) (s : state) :
  int t = Some z ->
  minus_one_to_zero t s = (Val (str_of_int (z - 1) ++ u "-" ++ u "0"), s)
  /\ str_of_int (z - 1) ++ u "-" ++ u "0" <> [].
Proof.
  intros H. unfold minus_one_to_zero. rewrite H. split; [reflexivity|].
  destruct (str_of_int (z - 1)); discriminate.
Qed.

(** C3: when the recovery runs (the last range does not reach bit 0) and
    [get_fldname] gives a name, one field line is printed for it, with the
    range (low - 1)-0 when the last range had a low bound, (high - 1)-0 when
    it was a single bit, and 31-0 when the table had no range at all; after
    a last range with low bound 1, such as 15-1, the range is 0-0. *)
Theorem trailing_field_range
  (chapter : str) (b : bits) (s s1 : state) (name : str) :
  range_reaches_zero (field b) = false ->
  get_fldname chapter [] s = (Val (Some name), s1) ->
  name <> [] ->
  let printed fld :=
    trailing_field chapter b s =
      (Val tt, St (m s1) (stdout s1 ++ [field_line name fld])) in
  (forall low z, sb b = Some low -> int low = Some z ->
     printed (str_of_int (z - 1) ++ u "-0"))
  /\ (forall high z, sb b = None -> eb b = Some high -> int high = Some z ->
        printed (str_of_int (z - 1) ++ u "-0"))
  /\ (sb b = None -> eb b = None -> printed (u "31-0"))
  /\ (sb b = Some (u "1") -> printed (u "0-0")).
Proof.
  intros Hz Hname Hne printed. unfold printed.
  assert (forall low z, sb b = Some low -> int low = Some z ->
            trailing_field chapter b s =
              (Val tt,
               St (m s1)
                  (stdout s1 ++ [field_line name (str_of_int (z - 1) ++ u "-0")])))
    as Hlow.
  { intros low z Hsb Hint.
    destruct (@minus_one_to_zero_val _ _ s1 Hint) as [E Ene].
    apply trailing_field_named; auto.
    unfold ending_field. rewrite Hsb. exact E. }
  repeat split.
  - exact Hlow.
  - intros high z Hsb Heb Hint.
    destruct (@minus_one_to_zero_val _ _ s1 Hint) as [E Ene].
    apply trailing_field_named; auto.
    unfold ending_field. rewrite Hsb, Heb. exact E.
  - intros Hsb Heb. apply trailing_field_named; auto; [|discriminate].
    unfold ending_field. rewrite Hsb, Heb. reflexivity.
  - intros Hsb. apply (Hlow (u "1") 1%Z Hsb). reflexivity.
Qed.

(** What is left of a chapter after its last bit range, 15-1: one more
    name line. *)
Definition chapter_tail : str := text_of [u " 15-1 status"; u "  LAST"].

Definition bits_15_1 : bits :=
  Bits (Some (u "15")) (Some (u "1")) (Some (u "15-1")).

Lemma trailing_field_range_witness :
  trailing_field chapter_tail bits_15_1 state0 =
    (Val tt,
     St (m (snd (get_fldname chapter_tail [] state0)))
        (stdout (snd (get_fldname chapter_tail [] state0))
         ++ [field_line (u "LAST") (u "0-0")])).
Proof.
  refine (proj2 (proj2 (proj2
    (@trailing_field_range chapter_tail bits_15_1 state0
       (snd (get_fldname chapter_tail [] state0)) (u "LAST") _ _ _))) _).
  - vm_compute. reflexivity.
  - vm_compute. reflexivity.
  - discriminate.
  - reflexivity.
Defined.

(** The whole chapter: ranges 31-16 and 15-1, then a name without a
    range. *)
Example regb_lines :
  main (u "1.2.3.4 " ++ chapter_regb) =
  ([u "REGB" ++ [TAB; TAB; TAB] ++ u "0x00000010";
    TAB :: u ":CTRL:31-16";
    TAB :: u ":STATUS:15-1";
    TAB :: u ":LAST:0-0"], Finished).
Proof. vm_compute. reflexivity. Qed.

(** ** When the recovery runs, and how it can end *)

(** A table whose only range, bit 7, has its name, and nothing after it
    that could be a name line. *)
Definition chapter_ends_after_name : str :=
  text_of [u "Odd Register (REGO)";
           u "Reset 0 Field  Description";
           u "  7 enable";
           u "  EN"].

(** The state when the field loop of that chapter has ended. *)
Definition after_loop : res bits * state :=
  match re_match r_name chapter_ends_after_name 0 with
  | Some m0 =>
      (_ <- get_address chapter_ends_after_name ;;
       _ <- get_nextm chapter_ends_after_name r_bitdescription true ;;
       field_loop chapter_ends_after_name (fuel chapter_ends_after_name)
         (Bits None None None)) (St m0 [])
  | None => (Exn SystemExit, state0)
  end.

(** C2, as stated, fails: the last range of this table is bit 7, no name
    line follows the cursor, and the recovery does not end quietly: the run
    stops with the error of [get_fldname], after the lines printed so far. *)
Lemma recovery_without_name_line_raises :
  fst after_loop = Val (Bits (Some (u "7")) None (Some (u "7")))
  /\ re_search r_fldname chapter_ends_after_name
       (m_end (m (snd after_loop))) = None
  /\ main (u "1.2.3.4 " ++ chapter_ends_after_name) =
       ([u "REGO" ++ [TAB; TAB; TAB] ++ u "FIXME"; TAB :: u ":EN:7"],
        Stopped (RuntimeError "cannot find fldname")).
Proof. vm_compute. repeat split; reflexivity. Qed.

Lemma get_fldname_no_name_line chapter fieldname s :
  re_search r_fldname chapter
    (m_end (m (snd (get_nextm chapter r_pagebreak false s)))) = None ->
  get_fldname chapter fieldname s =
    (Exn (RuntimeError "cannot find fldname"),
     snd (get_nextm chapter r_pagebreak false s)).
Proof.
  intros H. unfold get_fldname, fuel. simpl. unfold bind at 1.
  destruct (get_nextm chapter r_pagebreak false s) as [r1 s1] eqn:E1.
  simpl in H.
  assert (exists b1, r1 = Val b1) as [b1 ->].
  { rewrite get_nextm_eq in E1.
    destruct (lookup chapter r_pagebreak false (m_end (m s)));
      inversion E1; eauto. }
  unfold bind at 1. rewrite get_nextm_eq. unfold lookup. rewrite H.
  reflexivity.
Qed.

(** C2, amended: after the field loop, nothing more is done when the text
    of the last range is HIGH-0 or the single bit 0.  Otherwise
    [get_fldname] is called once, from the cursor, and decides the rest: when
    it returns no name (a dash or Reserved line) nothing is printed and
    the chapter is done; when it raises, the run stops with that error; and
    it raises "cannot find fldname" when no name line is found from the
    cursor on. *)
Theorem trailing_recovery (chapter : str) (b : bits) (s : state) :
  (forall high, field b = Some (high ++ u "-" ++ u "0") ->
     trailing_field chapter b s = (Val tt, s))
  /\ (field b = Some (u "0") -> trailing_field chapter b s = (Val tt, s))
  /\ (range_reaches_zero (field b) = false ->
      (forall r s1, get_fldname chapter [] s = (Val r, s1) ->
         truthy r = false ->
         trailing_field chapter b s = (Val tt, s1) /\ stdout s1 = stdout s)
      /\ (forall e s1, get_fldname chapter [] s = (Exn e, s1) ->
            trailing_field chapter b s = (Exn e, s1))
      /\ (re_search r_fldname chapter
            (m_end (m (snd (get_nextm chapter r_pagebreak false s)))) = None ->
          trailing_field chapter b s =
            (Exn (RuntimeError "cannot find fldname"),
             snd (get_nextm chapter r_pagebreak false s)))).
Proof.
  split; [|split; [|intros Hz; split; [|split]]].
  - intros high H. unfold trailing_field.
    rewrite H, range_reaches_zero_pair. reflexivity.
  - intros H. unfold trailing_field. rewrite H. reflexivity.
  - intros r s1 H Hr. unfold trailing_field. rewrite Hz.
    unfold bind. rewrite H, Hr. simpl. split; [reflexivity|].
    apply get_fldname_spec in H. tauto.
  - intros e s1 H. unfold trailing_field. rewrite Hz.
    unfold bind. rewrite H. reflexivity.
  - intros H. unfold trailing_field. rewrite Hz.
    unfold bind. rewrite (get_fldname_no_name_line _ _ _ H). reflexivity.
Qed.

Lemma trailing_recovery_witness :
  trailing_field chapter_ends_after_name
    (Bits (Some (u "7")) None (Some (u "7"))) (snd after_loop) =
  (Exn (RuntimeError "cannot find fldname"),
   snd (get_nextm chapter_ends_after_name r_pagebreak false (snd after_loop))).
Proof.
  destruct (trailing_recovery chapter_ends_after_name
              (Bits (Some (u "7")) None (Some (u "7"))) (snd after_loop))
    as (_ & _ & H).
  destruct (H eq_refl) as (_ & _ & H3).
  apply H3. vm_compute. reflexivity.
Defined.

(** ** svd2devregs.py *)

(** C10: a field wider than one bit is written with its lowest bit first,
    [bit_offset-(bit_offset + bit_width - 1)], the smaller number before the
    larger; a field of width 1 or less is written as [bit_offset] alone. *)
Theorem svd_range_low_first (peripheral : str) (f : Svd.svd_field) :
  let prefix :=
    [TAB] ++ u ":" ++ peripheral ++ u "_" ++ Svd.name f ++ u ":" in
  ((Svd.bit_width f > 1)%Z ->
     Svd.field_text peripheral f =
       prefix ++ str_of_int (Svd.bit_offset f) ++ u "-"
              ++ str_of_int (Svd.bit_offset f + Svd.bit_width f - 1) ++ [NL]
     /\ (Svd.bit_offset f < Svd.bit_offset f + Svd.bit_width f - 1)%Z)
  /\ ((Svd.bit_width f <= 1)%Z ->
        Svd.field_text peripheral f =
          prefix ++ str_of_int (Svd.bit_offset f) ++ [NL]).
Proof.
  unfold Svd.field_text. split; intros H.
  - assert ((Svd.bit_width f >? 1)%Z = true) as -> by lia.
    split; [|lia]. now rewrite <- !app_assoc.
  - assert ((Svd.bit_width f >? 1)%Z = false) as -> by lia.
    now rewrite <- !app_assoc.
Qed.

Lemma svd_range_low_first_witness :
  Svd.field_text (u "UART") (Svd.Field (u "BAUD") 4 12) =
    ([TAB] ++ u ":" ++ u "UART" ++ u "_" ++ u "BAUD" ++ u ":")
    ++ u "4" ++ u "-" ++ u "15" ++ [NL]
  /\ (4 < 4 + 12 - 1)%Z.
Proof.
  apply (proj1 (svd_range_low_first (u "UART") (Svd.Field (u "BAUD") 4 12))).
  simpl. lia.
Defined.

Example svd_field_lines :
  Svd.fields_text (u "UART")
    [Svd.Field (u "BAUD") 4 12; Svd.Field (u "EN") 0 1] =
  [TAB] ++ u ":UART_BAUD:4-15" ++ [NL] ++ [TAB] ++ u ":UART_EN:0" ++ [NL].
Proof. vm_compute. reflexivity. Qed.

(** * Matching a text of known shape *)

(** [bol] after the characters of [p]. *)
Definition end_bol (b : bool) (p : str) : bool :=
  fold_left (fun _ x => N.eqb x NL) p b.

(** The cursors in front of each character of [p], in the text [p ++ q]
    that starts at index [n]. *)
Fixpoint inside (n : nat) (b : bool) (p q : str) : list cursor :=
  match p with
  | [] => []
  | x :: p' => Cur n b (x :: p' ++ q) :: inside (S n) (N.eqb x NL) p' q
  end.

(** The cursor behind [p]. *)
Definition reached (n : nat) (b : bool) (p q : str) : cursor :=
  Cur (n + length p) (end_bol b p) q.

Lemma reached_cons n b x p q :
  reached n b (x :: p) q = reached (S n) (N.eqb x NL) p q.
Proof. unfold reached. simpl. f_equal. lia. Qed.

Lemma reached_nil n b q : reached n b [] q = Cur n b q.
Proof. unfold reached. simpl. f_equal. lia. Qed.

Lemma inside_length n b p q : length (inside n b p q) = length p.
Proof. revert n b. induction p; simpl; intros; auto. Qed.

Lemma in_inside p q : forall n b c,
  In c (inside n b p q) ->
  exists p1 x p2,
    p = p1 ++ x :: p2 /\ rest c = x :: p2 ++ q /\ pos c = n + length p1.
Proof.
  induction p as [|y p IH]; simpl; intros n b c H; [contradiction|].
  destruct H as [H|H].
  - subst. exists [], y, p. simpl. repeat split; auto.
  - apply IH in H. destruct H as (p1 & x & p2 & A & B & C).
    exists (y :: p1), x, p2. simpl. repeat split; auto.
    + now rewrite A.
    + lia.
Qed.

Lemma inside_app p1 p2 q : forall n b,
  inside n b (p1 ++ p2) q =
  inside n b p1 (p2 ++ q)
  ++ inside (n + length p1) (end_bol b p1) p2 q.
Proof.
  induction p1 as [|x p1 IH]; simpl; intros n b.
  - unfold end_bol. simpl. f_equal. lia.
  - rewrite IH. rewrite <- app_assoc. do 3 f_equal. lia.
Qed.

Definition stops_before (k : cclass) (q : str) : Prop :=
  match q with
  | [] => True
  | y :: _ => in_class k y = false
  end.

Definition within (hi : option nat) (p : str) : Prop :=
  match hi with
  | Some h => length p <= h
  | None => True
  end.

(** A run of [k] over a text that starts with [p], all of class [k], and
    goes on with something that is not. *)
Lemma runs_known k p q : forall hi n b,
  Forall (fun x => in_class k x = true) p ->
  within hi p -> stops_before k q ->
  runs k hi n b (p ++ q) = inside n b p q ++ [reached n b p q].
Proof.
  induction p as [|x p IH]; intros hi n b Hp Hhi Hq.
  - simpl. rewrite reached_nil. destruct q as [|y q]; simpl; [reflexivity|].
    simpl in Hq. now rewrite Hq.
  - inversion Hp as [|? ? Hx Hp']; subst. simpl. rewrite Hx.
    rewrite reached_cons.
    destruct hi as [[|h]|]; simpl in Hhi; [lia| |];
      (rewrite IH; [reflexivity|assumption| |assumption]); simpl; auto; lia.
Qed.

Lemma runs_any s n b :
  runs Any None n b s = inside n b s [] ++ [reached n b s []].
Proof.
  rewrite <- (app_nil_r s) at 1. apply runs_known; simpl; auto.
  apply Forall_forall. reflexivity.
Qed.

Lemma flat_map_through_map {A B C} (f : B -> list C) (h : A -> B) (l : list A) :
  flat_map f (map h l) = flat_map (fun x => f (h x)) l.
Proof. induction l; simpl; [reflexivity|]. now rewrite IHl. Qed.

Lemma flat_map_nil {A B} (f : A -> list B) (l : list A) :
  (forall x, In x l -> f x = []) -> flat_map f l = [].
Proof.
  induction l as [|a l IH]; simpl; intros H; [reflexivity|].
  rewrite (H a) by now left. apply IH. intros x Hx. apply H. now right.
Qed.

Lemma matches_seq_rep k lo hi greedy r c g :
  matches (Seq (Rep k lo hi greedy) r) c g =
  flat_map (fun c' => matches r c' g) (rep k lo hi greedy c).
Proof. simpl. now rewrite flat_map_through_map. Qed.

Lemma skipn_snoc {A} (l : list A) (a : A) : forall lo,
  lo <= length l -> skipn lo (l ++ [a]) = skipn lo l ++ [a].
Proof.
  induction l as [|x l IH]; intros [|lo] H; simpl in *; auto; try lia.
  apply IH. lia.
Qed.

(** The greedy run: first all of [p], then back one character at a time. *)
Lemma rep_greedy_known k lo hi n b p q :
  Forall (fun x => in_class k x = true) p ->
  within hi p -> stops_before k q -> lo <= length p ->
  rep k lo hi true (Cur n b (p ++ q)) =
  reached n b p q :: rev (skipn lo (inside n b p q)).
Proof.
  intros Hp Hhi Hq Hlo. unfold rep. simpl.
  rewrite runs_known by assumption.
  rewrite skipn_snoc by (rewrite inside_length; exact Hlo).
  now rewrite rev_app_distr.
Qed.

Lemma rep_lazy_any n b s :
  rep Any 0 None false (Cur n b s) = inside n b s [] ++ [reached n b s []].
Proof. unfold rep. simpl. apply runs_any. Qed.

(** [r] matches from [c], and its first match leaves the cursor at [c']
    with groups [g']. *)
Definition first (r : regex) (c : cursor) (g : groups) (c' : cursor)
  (g' : groups) : Prop :=
  exists others, matches r c g = (c', g') :: others.

Lemma first_seq r1 r2 c g c1 g1 c2 g2 :
  first r1 c g c1 g1 -> first r2 c1 g1 c2 g2 -> first (Seq r1 r2) c g c2 g2.
Proof.
  intros [o1 H1] [o2 H2]. unfold first. simpl. rewrite H1. simpl.
  rewrite H2. simpl. eauto.
Qed.

Lemma first_alt_l r1 r2 c g c' g' :
  first r1 c g c' g' -> first (Alt r1 r2) c g c' g'.
Proof. intros [o H]. unfold first. simpl. rewrite H. simpl. eauto. Qed.

Lemma first_alt_r r1 r2 c g c' g' :
  matches r1 c g = [] -> first r2 c g c' g' -> first (Alt r1 r2) c g c' g'.
Proof. intros H1 [o H]. unfold first. simpl. rewrite H1, H. simpl. eauto. Qed.

Lemma first_grp name r c g c' g' :
  first r c g c' g' ->
  first (Grp name r) c g c'
        ((name, firstn (pos c' - pos c) (rest c)) :: g').
Proof. intros [o H]. unfold first. simpl. rewrite H. simpl. eauto. Qed.

Lemma first_ahead r c g c' g' :
  first r c g c' g' -> first (Ahead r) c g c g'.
Proof. intros [o H]. unfold first. simpl. rewrite H. simpl. eauto. Qed.

Lemma first_notahead r c g :
  matches r c g = [] -> first (NotAhead r) c g c g.
Proof. intros H. unfold first. simpl. rewrite H. eauto. Qed.

Lemma first_one k n b x t g :
  in_class k x = true ->
  first (One k) (Cur n b (x :: t)) g (Cur (S n) (N.eqb x NL) t) g.
Proof. intros H. unfold first. simpl. rewrite H. simpl. eauto. Qed.

Lemma strip_app p : forall n b q,
  strip p n b (p ++ q) = Some (reached n b p q).
Proof.
  induction p as [|x p IH]; intros n b q; simpl.
  - now rewrite reached_nil.
  - rewrite N.eqb_refl, IH. now rewrite reached_cons.
Qed.

Lemma strip_none p : forall n b s,
  starts_with p s = false -> strip p n b s = None.
Proof.
  induction p as [|x p IH]; intros n b [|y s] H; simpl in *;
    try discriminate; auto.
  destruct (N.eqb x y); simpl in H; auto.
Qed.

Lemma first_lit p n b q g :
  first (Lit p) (Cur n b (p ++ q)) g (reached n b p q) g.
Proof. unfold first. simpl. rewrite strip_app. eauto. Qed.

Lemma fails_lit p n b s g :
  starts_with p s = false -> matches (Lit p) (Cur n b s) g = [].
Proof. intros H. simpl. now rewrite strip_none. Qed.

Lemma first_seq_greedy k lo hi r n b p q g c' g' :
  Forall (fun x => in_class k x = true) p ->
  within hi p -> stops_before k q -> lo <= length p ->
  first r (reached n b p q) g c' g' ->
  first (Seq (Rep k lo hi true) r) (Cur n b (p ++ q)) g c' g'.
Proof.
  intros Hp Hhi Hq Hlo [o H]. unfold first.
  rewrite matches_seq_rep, rep_greedy_known by assumption.
  simpl. rewrite H. simpl. eauto.
Qed.

Lemma first_greedy k lo hi n b p q g :
  Forall (fun x => in_class k x = true) p ->
  within hi p -> stops_before k q -> lo <= length p ->
  first (Rep k lo hi true) (Cur n b (p ++ q)) g (reached n b p q) g.
Proof.
  intros Hp Hhi Hq Hlo. unfold first. cbn [matches].
  rewrite rep_greedy_known by assumption. simpl. eauto.
Qed.

(** The lazy [.*?] under re.S, before a pattern that fails in front of
    every character of [p]. *)
Lemma first_seq_lazy_any r n b p q g c' g' :
  (forall c, In c (inside n b p q) -> matches r c g = []) ->
  first r (reached n b p q) g c' g' ->
  first (Seq (Rep Any 0 None false) r) (Cur n b (p ++ q)) g c' g'.
Proof.
  intros Hfail [o H]. unfold first.
  rewrite matches_seq_rep, rep_lazy_any.
  rewrite inside_app, <- app_assoc, flat_map_app.
  rewrite app_nil_r, (flat_map_nil _ _ Hfail). simpl.
  assert (exists l, inside (n + length p) (end_bol b p) q []
                    ++ [reached n b (p ++ q) []]
                    = reached n b p q :: l) as [l ->].
  { destruct q as [|y q]; simpl.
    - rewrite app_nil_r. eauto.
    - unfold reached at 2. rewrite app_nil_r. eauto. }
  simpl. rewrite H. simpl. eauto.
Qed.

Lemma first_match_of_first r c c' g' :
  first r c [] c' g' -> first_match r c = Some (Match (pos c) (pos c') g').
Proof. intros [o H]. unfold first_match. now rewrite H. Qed.

Lemma first_match_fails r c :
  matches r c [] = [] -> first_match r c = None.
Proof. intros H. unfold first_match. now rewrite H. Qed.

Lemma cursor_from_app pre s : forall n b,
  cursor_from n b (pre ++ s) (length pre) = Some (reached n b pre s).
Proof.
  induction pre as [|x pre IH]; intros n b.
  - now rewrite reached_nil.
  - rewrite reached_cons. simpl. apply IH.
Qed.

Lemma search_from_hit r n b s mt :
  first_match r (Cur n b s) = Some mt -> search_from r n b s = Some mt.
Proof. intros H. destruct s; simpl; now rewrite H. Qed.

Lemma search_from_skip r p q : forall n b,
  (forall c, In c (inside n b p q) -> first_match r c = None) ->
  search_from r n b (p ++ q) = search_from r (n + length p) (end_bol b p) q.
Proof.
  induction p as [|x p IH]; intros n b H; simpl.
  - unfold end_bol. simpl. f_equal. lia.
  - rewrite (H (Cur n b (x :: p ++ q))) by (simpl; now left).
    rewrite IH.
    + unfold end_bol. simpl. f_equal. lia.
    + intros c Hc. apply H. simpl. now right.
Qed.

(** A pattern that begins with [\n] matches only in front of a newline. *)
Lemma newline_first r c :
  (forall x t, rest c = x :: t -> x <> NL) ->
  first_match (Seq (chr NL) r) c = None.
Proof.
  intros H. apply first_match_fails. unfold chr. cbn [matches].
  destruct c as [n b [|x t]]; cbn [rest in_class] in *; [reflexivity|].
  destruct (N.eqb NL x) eqn:E; [|reflexivity].
  apply N.eqb_eq in E. exfalso. apply (H x t); auto.
Qed.

Lemma search_from_next_line r gap q n b :
  Forall (fun x => x <> NL) gap ->
  search_from (Seq (chr NL) r) n b (gap ++ q) =
  search_from (Seq (chr NL) r) (n + length gap) (end_bol b gap) q.
Proof.
  intros Hgap. apply search_from_skip. intros c Hc.
  apply newline_first. intros x t Hx.
  apply in_inside in Hc. destruct Hc as (p1 & y & p2 & A & B & _).
  rewrite B in Hx. inversion Hx; subst.
  rewrite Forall_forall in Hgap. apply Hgap.
  apply in_or_app. right. now left.
Qed.

(** ** Facts on the classes *)

(** No range of the table meets the range from [lo] to [hi]. *)
Definition avoids (t : list (N * N)) (lo hi : N) : bool :=
  forallb (fun r => (snd r <? lo) || (hi <? fst r))%N t.

Lemma in_ranges_cons lo hi t c :
  in_ranges ((lo, hi) :: t) c = between lo hi c || in_ranges t c.
Proof. reflexivity. Qed.

Lemma avoids_spec t lo hi c :
  avoids t lo hi = true -> between lo hi c = true -> in_ranges t c = false.
Proof.
  unfold avoids, between. intros Ht Hc.
  apply andb_true_iff in Hc. destruct Hc as [A B].
  apply N.leb_le in A. apply N.leb_le in B.
  induction t as [|[a b] t IH]; [reflexivity|].
  cbn [forallb fst snd] in Ht. apply andb_true_iff in Ht.
  destruct Ht as [H1 H2]. rewrite in_ranges_cons, (IH H2), orb_false_r.
  unfold between. apply andb_false_iff.
  apply orb_true_iff in H1. destruct H1 as [H1|H1]; apply N.ltb_lt in H1.
  - right. apply N.leb_gt. lia.
  - left. apply N.leb_gt. lia.
Qed.

(** Every range of the first table lies within a range of the second. *)
Definition within_ranges (t1 t2 : list (N * N)) : bool :=
  forallb
    (fun r => existsb (fun q => (fst q <=? fst r) && (snd r <=? snd q))%N t2)
    t1.

Lemma in_ranges_covered t lo hi c :
  existsb (fun q => (fst q <=? lo) && (hi <=? snd q))%N t = true ->
  between lo hi c = true -> in_ranges t c = true.
Proof.
  unfold between. intros Ht Hc.
  apply andb_true_iff in Hc. destruct Hc as [A B].
  apply N.leb_le in A. apply N.leb_le in B.
  induction t as [|[a b] t IH]; [discriminate|].
  cbn [existsb fst snd] in Ht. rewrite in_ranges_cons.
  apply orb_true_iff in Ht. destruct Ht as [H|H].
  - apply andb_true_iff in H. destruct H as [H1 H2].
    apply N.leb_le in H1. apply N.leb_le in H2.
    apply orb_true_iff. left. unfold between.
    apply andb_true_iff. split; apply N.leb_le; lia.
  - rewrite (IH H). apply orb_true_r.
Qed.

Lemma within_ranges_spec t1 t2 c :
  within_ranges t1 t2 = true ->
  in_ranges t1 c = true -> in_ranges t2 c = true.
Proof.
  unfold within_ranges. induction t1 as [|[lo hi] t1 IH]; [discriminate|].
  cbn [forallb fst snd]. rewrite in_ranges_cons. intros H Hc.
  apply andb_true_iff in H. destruct H as [H1 H2].
  apply orb_true_iff in Hc. destruct Hc as [Hc|Hc].
  - exact (in_ranges_covered _ _ _ _ H1 Hc).
  - exact (IH H2 Hc).
Qed.

Lemma between_one c x : N.eqb x c = true -> between c c x = true.
Proof.
  intros H. apply N.eqb_eq in H. subst x. unfold between.
  now rewrite N.leb_refl.
Qed.

Lemma word_not_space x : is_word x = true -> is_space x = false.
Proof.
  intros H. apply not_true_is_false. intros G.
  assert (is_word x = false) as E; [|congruence].
  unfold is_space in G. unfold is_word.
  repeat (apply orb_true_iff in G; destruct G as [G|G]);
    try apply between_one in G;
    (eapply avoids_spec; [|exact G]); vm_compute; reflexivity.
Qed.

Lemma word_not_dash x : is_word x = true -> N.eqb 45 x = false.
Proof.
  intros H. destruct (N.eqb_spec 45 x) as [E|E]; [|reflexivity].
  subst x. vm_compute in H. discriminate H.
Qed.

Lemma digit_is_word x : is_digit x = true -> is_word x = true.
Proof.
  apply within_ranges_spec. vm_compute. reflexivity.
Qed.

Lemma not_word_not_underscore x : is_word x = false -> N.eqb 95 x = false.
Proof.
  intros H. destruct (N.eqb_spec 95 x) as [E|E]; [|reflexivity].
  subst x. vm_compute in H. discriminate H.
Qed.

Lemma In_skipn {A} (x : A) (l : list A) : forall n, In x (skipn n l) -> In x l.
Proof.
  induction l as [|a l IH]; intros [|n] H; simpl in *; eauto.
Qed.

Lemma in_rep_known k lo hi greedy n b p q c :
  Forall (fun x => in_class k x = true) p ->
  within hi p -> stops_before k q ->
  In c (rep k lo hi greedy (Cur n b (p ++ q))) ->
  In c (inside n b p q) \/ c = reached n b p q.
Proof.
  intros Hp Hhi Hq H. unfold rep in H. simpl in H.
  assert (In c (runs k hi n b (p ++ q))) as H'.
  { destruct greedy; [apply in_rev in H|]; eapply In_skipn; eassumption. }
  rewrite runs_known in H' by assumption.
  apply in_app_or in H'. destruct H' as [H'|[H'|[]]]; auto.
Qed.

(** A word that is a whole prefix test: [p] is not at the head of [w], and
    [w] cannot be completed into [p] by what follows. *)
Lemma starts_with_word p : forall w q,
  starts_with p w = false ->
  Forall (fun x => is_word x = true) p -> stops_before Word q ->
  starts_with p (w ++ q) = false.
Proof.
  induction p as [|x p IH]; intros w q H Hp Hq; simpl in H; [discriminate|].
  inversion Hp as [|? ? Hx Hp']; subst.
  destruct w as [|y w]; simpl.
  - destruct q as [|z q]; [reflexivity|]. simpl in Hq.
    destruct (N.eqb x z) eqn:E; [|reflexivity].
    apply N.eqb_eq in E. subst. congruence.
  - destruct (N.eqb x y); simpl in *; [|reflexivity]. now apply IH.
Qed.

(** ** The name line *)

Lemma matches_seq r1 r2 c g :
  matches (Seq r1 r2) c g =
  flat_map (fun cg => matches r2 (fst cg) (snd cg)) (matches r1 c g).
Proof. reflexivity. Qed.

Lemma matches_alt r1 r2 c g :
  matches (Alt r1 r2) c g = matches r1 c g ++ matches r2 c g.
Proof. reflexivity. Qed.

Lemma matches_grp name r c g :
  matches (Grp name r) c g =
  map (fun cg =>
         (fst cg, (name, firstn (pos (fst cg) - pos c) (rest c)) :: snd cg))
      (matches r c g).
Proof. reflexivity. Qed.

Lemma nnf_passes n b x t g :
  is_digit x = false -> starts_with (u "Field") (x :: t) = false ->
  matches not_number_nor_Field (Cur n b (x :: t)) g = [(Cur n b (x :: t), g)].
Proof.
  intros Hd Hf. unfold not_number_nor_Field, plus, txt. cbn [matches].
  unfold rep. cbn [pos bol rest runs in_class]. rewrite Hd.
  cbn [skipn rev map flat_map fst snd app].
  rewrite strip_none by assumption. reflexivity.
Qed.

Lemma fld_reserved_fails n b x t g :
  is_word x = true -> starts_with (u "Reserved") (x :: t) = false ->
  matches fld_reserved (Cur n b (x :: t)) g = [].
Proof.
  intros Hw Hr. unfold fld_reserved, txt. cbn [matches].
  rewrite (strip_none (u "Reserved") _ _ _ Hr).
  cbn [pos bol rest u strip]. 
  change (N_of_ascii "-") with 45%N. rewrite (word_not_dash _ Hw). reflexivity.
Qed.

Lemma underscore_then_space_fails (c : cursor) g :
  (forall t, rest c = UNDERSCORE :: t ->
             exists z t', t = z :: t' /\ is_space z = false) ->
  matches (txt "_" >> Ahead (One Space >> star NotNL >> chr NL))%re c g = [].
Proof.
  intros H. unfold txt. cbn [matches].
  destruct c as [n b [|y t]]; cbn [pos bol rest u strip] in *; [reflexivity|].
  change (N_of_ascii "_") with UNDERSCORE.
  destruct (N.eqb UNDERSCORE y) eqn:E; [|reflexivity].
  apply N.eqb_eq in E. subst y.
  destruct (H t eq_refl) as (z & t' & -> & Hz).
  cbn [flat_map fst snd matches rest in_class]. rewrite Hz. reflexivity.
Qed.

Lemma last_app_cons (p1 p2 : str) (y d : char) :
  last (p1 ++ y :: p2) d = last (y :: p2) d.
Proof.
  induction p1 as [|a p1 IH]; [reflexivity|].
  simpl app. rewrite <- IH. simpl. destruct (p1 ++ y :: p2) eqn:E; auto.
  destruct p1; discriminate.
Qed.

Lemma fld_multi_fails n b x w post g :
  Forall (fun y => is_word y = true) (x :: w) ->
  is_digit x = false ->
  starts_with (u "Field") (x :: w ++ post) = false ->
  last (x :: w) 0%N <> UNDERSCORE ->
  stops_before Word post ->
  matches fld_multi (Cur n b ((x :: w) ++ post)) g = [].
Proof.
  intros Hw Hd Hf Hlast Hpost. unfold fld_multi. rewrite matches_seq.
  rewrite (nnf_passes _ _ _ _ g Hd Hf). cbn [flat_map fst snd].
  rewrite app_nil_r, matches_grp. unfold plus. rewrite matches_seq_rep.
  rewrite flat_map_nil; [reflexivity|].
  intros c Hc. apply underscore_then_space_fails. intros t Ht.
  change (x :: w ++ post) with ((x :: w) ++ post) in Hc.
  apply in_rep_known in Hc; simpl; auto.
  destruct Hc as [Hc| ->].
  - apply in_inside in Hc. destruct Hc as (p1 & y & p2 & A & B & _).
    rewrite B in Ht. inversion Ht; subst y t.
    destruct p2 as [|z p2].
    + exfalso. apply Hlast. rewrite A. now rewrite last_app_cons.
    + exists z, (p2 ++ post). split; [reflexivity|].
      apply word_not_space. rewrite Forall_forall in Hw. apply Hw.
      rewrite A. apply in_or_app. right. right. now left.
  - exfalso. unfold reached in Ht. simpl in Ht. subst post. simpl in Hpost.
    discriminate.
Qed.

Lemma firstn_exact {A} (p q : list A) k :
  k = length p -> firstn k (p ++ q) = p.
Proof.
  intros ->. rewrite firstn_app, Nat.sub_diag, firstn_all. simpl.
  apply app_nil_r.
Qed.

Lemma fld_solo_first n b x w post g :
  Forall (fun y => is_word y = true) (x :: w) ->
  is_digit x = false ->
  starts_with (u "Field") (x :: w ++ post) = false ->
  stops_before Word post ->
  first fld_solo (Cur n b ((x :: w) ++ post)) g
        (reached n b (x :: w) post) (("fldname_solo"%string, x :: w) :: g).
Proof.
  intros Hw Hd Hf Hpost. unfold fld_solo.
  eapply first_seq.
  - exists []. apply nnf_passes; assumption.
  - assert (first (Grp "fldname_solo" (plus Word)) (Cur n b ((x :: w) ++ post)) g
              (reached n b (x :: w) post)
              (("fldname_solo"%string,
                firstn (pos (reached n b (x :: w) post) - n) ((x :: w) ++ post))
                 :: g)) as H.
    { apply (first_grp "fldname_solo").
      apply first_greedy; simpl; auto. lia. }
    rewrite firstn_exact in H; [exact H|]. unfold reached. simpl. lia.
Qed.

Lemma word_Field : Forall (fun x => is_word x = true) (u "Field").
Proof. repeat constructor. Qed.

Lemma word_Reserved : Forall (fun x => is_word x = true) (u "Reserved").
Proof. repeat constructor. Qed.

Lemma re_search_next_line r' pre gap q mt :
  Forall (fun x => x <> NL) gap ->
  first_match (Seq (chr NL) r')
    (Cur (length pre + length gap) (end_bol (end_bol true pre) gap) q)
    = Some mt ->
  re_search (Seq (chr NL) r') (pre ++ gap ++ q) (length pre) = Some mt.
Proof.
  intros Hgap H. unfold re_search, cursor_at.
  rewrite cursor_from_app. unfold reached. cbn [pos bol rest].
  rewrite search_from_next_line by assumption.
  now apply search_from_hit.
Qed.

Lemma r_fldname_solo n b sp x w post :
  Forall (fun y => is_space y = true) sp -> length sp <= 13 ->
  Forall (fun y => is_word y = true) (x :: w) ->
  is_digit x = false ->
  starts_with (u "Field") (x :: w) = false ->
  starts_with (u "Reserved") (x :: w) = false ->
  last (x :: w) 0%N <> UNDERSCORE ->
  stops_before Word post ->
  first r_fldname (Cur n b (NL :: sp ++ (x :: w) ++ post)) []
        (reached (S n + length sp) (end_bol true sp) (x :: w) post)
        [("fldname_solo"%string, x :: w)].
Proof.
  intros Hsp Hlen Hw Hd Hf Hr Hlast Hpost.
  assert (is_word x = true) as Hx by (now inversion Hw).
  pose proof (starts_with_word _ _ _ Hf word_Field Hpost) as Hf'.
  pose proof (starts_with_word _ _ _ Hr word_Reserved Hpost) as Hr'.
  unfold r_fldname. eapply first_seq.
  { unfold chr. apply first_one. reflexivity. }
  unfold range. apply first_seq_greedy; auto.
  { simpl. now apply word_not_space. }
  { lia. }
  unfold reached at 1.
  apply first_alt_r.
  - rewrite matches_alt.
    rewrite (fld_reserved_fails _ _ _ _ _ Hx Hr').
    now rewrite fld_multi_fails.
  - now apply fld_solo_first.
Qed.

(** The state after the page-break step of [get_fldname]: the boilerplate
    skipped when it stands at the cursor, the state as it was when not. *)
Definition after_pagebreak (chapter : str) (s : state) : state :=
  snd (get_nextm chapter r_pagebreak false s).

Lemma pagebreak_step chapter s :
  exists b,
    get_nextm chapter r_pagebreak false s = (Val b, after_pagebreak chapter s)
    /\ stdout (after_pagebreak chapter s) = stdout s.
Proof.
  unfold after_pagebreak. rewrite get_nextm_eq.
  destruct (lookup chapter r_pagebreak false (m_end (m s))); simpl; eauto.
Qed.

(** A whole word on the first line after the cursor, after at most 13
    white-space characters, that begins neither with a digit nor with
    "Field" or "Reserved" and does not end in an underscore, is the name
    [get_fldname] returns. *)
Lemma get_fldname_accepts
  (pre gap sp w post fieldname : str) (x : char) (s : state) :
  let chapter := pre ++ gap ++ NL :: sp ++ (x :: w) ++ post in
  m_end (m (after_pagebreak chapter s)) = length pre ->
  Forall (fun y => y <> NL) gap ->
  Forall (fun y => is_space y = true) sp -> length sp <= 13 ->
  Forall (fun y => is_word y = true) (x :: w) ->
  stops_before Word post ->
  is_digit x = false ->
  starts_with (u "Field") (x :: w) = false ->
  starts_with (u "Reserved") (x :: w) = false ->
  last (x :: w) 0%N <> UNDERSCORE ->
  get_fldname chapter fieldname s =
    (Val (Some (fieldname ++ x :: w)),
     St (Match (length pre + length gap)
               (S (length pre + length gap) + length sp + length (x :: w))
               [("fldname_solo"%string, x :: w)])
        (stdout s)).
Proof.
  intros chapter Hcur Hgap Hsp Hlen Hw Hpost Hd Hf Hr Hlast.
  pose proof (r_fldname_solo (length pre + length gap)
                (end_bol (end_bol true pre) gap) sp x w post
                Hsp Hlen Hw Hd Hf Hr Hlast Hpost) as H1.
  apply first_match_of_first in H1.
  apply (re_search_next_line _ pre gap _ _ Hgap) in H1.
  fold chapter in H1.
  unfold get_fldname, fuel. cbn [get_fldname_rec].
  destruct (pagebreak_step chapter s) as (b1 & E1 & Hout).
  unfold bind at 1. rewrite E1.
  unfold bind at 1. rewrite get_nextm_eq. unfold lookup.
  rewrite Hcur, Hout.
  change r_fldname
    with (chr NL >> range 0 13 Space
          >> (fld_reserved || fld_multi || fld_solo))%re.
  rewrite H1. reflexivity.
Qed.

Lemma space_not_word x : is_space x = true -> is_word x = false.
Proof.
  intros H. destruct (is_word x) eqn:E; [|reflexivity].
  apply word_not_space in E. congruence.
Qed.





(** ** The address line *)

Lemma first_grp_known name r n b p q g b' g' :
  first r (Cur n b (p ++ q)) g (Cur (n + length p) b' q) g' ->
  first (Grp name r) (Cur n b (p ++ q)) g (Cur (n + length p) b' q)
        ((name, p) :: g').
Proof.
  intros H. apply (first_grp name) in H. cbn [pos rest] in H.
  rewrite firstn_exact in H by lia. exact H.
Qed.

Lemma four_any n b X q g :
  length X = 4 ->
  first (four Any) (Cur n b (X ++ q)) g
        (Cur (n + length X) (end_bol b X) q) g.
Proof.
  intros H.
  destruct X as [|x1 [|x2 [|x3 [|x4 [|]]]]]; try discriminate.
  unfold four. simpl app. simpl length.
  replace (n + 4) with (S (S (S (S n)))) by lia.
  repeat (eapply first_seq; [apply first_one; reflexivity|]).
  apply first_one. reflexivity.
Qed.

Definition adr_line (mid : str) (c : char) (X Y post : str) : str :=
  u "Address:" ++ mid ++ u "=" ++ c :: X ++ u "_" ++ Y ++ u "h" ++ NL :: post.

Definition adr_length (mid : str) : nat := 8 + length mid + 13.

Lemma lit_seq_first p r n b q g c' g' :
  first r (reached n b p q) g c' g' ->
  first (Lit p >> r) (Cur n b (p ++ q)) g c' g'.
Proof. intros H. eapply first_seq; [apply first_lit|exact H]. Qed.

Lemma adr_tail_first n b mid c X Y post g :
  Forall (fun y => y <> EQUALS) mid -> is_space c = true ->
  length X = 4 -> length Y = 4 ->
  first adr_tail (Cur n b (adr_line mid c X Y post)) g
        (Cur (n + adr_length mid) true post)
        (("a2"%string, Y) :: ("a1"%string, X) :: g).
Proof.
  intros Hmid Hc HX HY. unfold adr_tail, adr_line, txt, lazy.
  apply lit_seq_first. unfold reached.
  apply first_seq_lazy_any.
  { intros c0 Hc0. apply in_inside in Hc0.
    destruct Hc0 as (p1 & y & p2 & A & B & _).
    rewrite matches_seq. destruct c0 as [n0 b0 r0]. simpl in B. subst r0.
    rewrite fails_lit; [reflexivity|].
    change (u "=") with [EQUALS]. cbn [starts_with].
    apply andb_false_iff. left. apply N.eqb_neq. intros E.
    rewrite Forall_forall in Hmid. apply (Hmid y).
    - rewrite A. apply in_or_app. right. now left.
    - symmetry. exact E. }
  unfold reached. apply lit_seq_first. unfold reached.
  eapply first_seq; [apply first_one; exact Hc|].
  eapply first_seq; [apply first_grp_known, four_any; exact HX|].
  apply lit_seq_first. unfold reached.
  eapply first_seq; [apply first_grp_known, four_any; exact HY|].
  apply lit_seq_first. unfold reached, chr.
  match goal with
  | |- first _ (Cur ?a ?b0 _) _ (Cur ?e _ _) _ =>
      replace e with (S a)
  end.
  - apply first_one. reflexivity.
  - unfold adr_length. rewrite HX, HY. simpl. lia.
Qed.

(** No "Address:" starts inside [t], in the text [t ++ l]. *)
Definition none_starts_in (p t l : str) : Prop :=
  forall t1 t2, t = t1 ++ t2 -> t2 <> [] -> starts_with p (t2 ++ l) = false.

Lemma none_starts_in_tail p y t l :
  none_starts_in p (y :: t) l -> none_starts_in p t l.
Proof.
  intros H t1 t2 E Hne. apply (H (y :: t1) t2); [|assumption].
  simpl. now rewrite E.
Qed.

Lemma spaces_or_not (l : str) :
  Forall (fun y => is_space y = true) l
  \/ exists sp z l2,
       l = sp ++ z :: l2 /\ Forall (fun y => is_space y = true) sp
       /\ is_space z = false.
Proof.
  induction l as [|y l IH]; [left; constructor|].
  destruct (is_space y) eqn:E.
  - destruct IH as [IH|(sp & z & l2 & A & B & C)].
    + left. now constructor.
    + right. exists (y :: sp), z, l2. subst l. repeat split; auto.
  - right. exists [], y, l. repeat split; auto.
Qed.

Lemma r_adr_unfold :
  r_adr = (chr NL >> star Space >> adr_tail)%re.
Proof. reflexivity. Qed.

Lemma adr_tail_fails c g :
  starts_with (u "Address:") (rest c) = false -> matches adr_tail c g = [].
Proof.
  intros H. unfold adr_tail, txt. rewrite matches_seq.
  destruct c as [n b r]. simpl in H. now rewrite fails_lit.
Qed.

Lemma matches_after_newline r n b t g :
  matches (chr NL >> r) (Cur n b (NL :: t)) g = matches r (Cur (S n) true t) g.
Proof.
  rewrite matches_seq. unfold chr. cbn [matches rest in_class].
  rewrite N.eqb_refl. cbn [advance map rest pos flat_map fst snd].
  rewrite N.eqb_refl. apply app_nil_r.
Qed.

Lemma matches_not_newline r n b y t g :
  N.eqb NL y = false -> matches (chr NL >> r) (Cur n b (y :: t)) g = [].
Proof.
  intros H. rewrite matches_seq. unfold chr. cbn [matches rest in_class].
  now rewrite H.
Qed.

Section AddressLine.

Variables (mid X Y post : str) (c : char).
Hypothesis Hmid : Forall (fun y => y <> EQUALS) mid.
Hypothesis Hc : is_space c = true.
Hypothesis HX : length X = 4.
Hypothesis HY : length Y = 4.

Let L := adr_line mid c X Y post.
Let G : groups := [("a2"%string, Y); ("a1"%string, X)].

Lemma L_not_space : stops_before Space L.
Proof. reflexivity. Qed.

(** From a newline with only white space up to the line. *)
Lemma r_adr_at_newline n b t :
  Forall (fun y => is_space y = true) t ->
  first r_adr (Cur n b (NL :: t ++ L)) []
        (Cur (n + length (NL :: t) + adr_length mid) true post) G.
Proof.
  intros Ht. rewrite r_adr_unfold.
  eapply first_seq; [unfold chr; apply first_one; reflexivity|].
  unfold star. apply first_seq_greedy; auto.
  - exact I.
  - exact L_not_space.
  - lia.
  - unfold reached.
    replace (n + length (NL :: t) + adr_length mid)
      with (S n + length t + adr_length mid) by (simpl; lia).
    now apply adr_tail_first.
Qed.

(** From anywhere before the line: no match, or the match of the line. *)
Lemma r_adr_before n b y t :
  none_starts_in (u "Address:") (y :: t) L ->
  matches r_adr (Cur n b ((y :: t) ++ L)) [] = []
  \/ first r_adr (Cur n b ((y :: t) ++ L)) []
           (Cur (n + length (y :: t) + adr_length mid) true post) G.
Proof.
  intros Hnone.
  destruct (N.eqb NL y) eqn:Ey.
  - apply N.eqb_eq in Ey. subst y.
    destruct (spaces_or_not t) as [Ht|(sp & z & l2 & A & B & C)].
    + right. now apply r_adr_at_newline.
    + left. rewrite r_adr_unfold. cbn [app].
      rewrite matches_after_newline.
      unfold star. rewrite matches_seq_rep. apply flat_map_nil.
      intros c' Hc'. apply adr_tail_fails.
      rewrite A, <- app_assoc in Hc'. 
      apply in_rep_known in Hc'; [|assumption|exact I|exact C].
      destruct Hc' as [Hc'| ->].
      * apply in_inside in Hc'. destruct Hc' as (p1 & x & p2 & A1 & B1 & _).
        rewrite B1.
        replace (x :: p2 ++ (z :: l2) ++ L)
          with ((x :: p2 ++ z :: l2) ++ L)
          by (simpl; now rewrite <- app_assoc).
        apply (Hnone (NL :: p1)); [|discriminate].
        rewrite A, A1. simpl. now rewrite <- app_assoc.
      * unfold reached. cbn [rest].
        apply (Hnone (NL :: sp) (z :: l2)); [|discriminate].
        now rewrite A.
  - left. rewrite r_adr_unfold. cbn [app].
    now apply matches_not_newline.
Qed.

Lemma search_adr gap ws : forall n b,
  Forall (fun y => is_space y = true) ws ->
  none_starts_in (u "Address:") (gap ++ NL :: ws) L ->
  exists st,
    n <= st
    /\ search_from r_adr n b ((gap ++ NL :: ws) ++ L) =
       Some (Match st (n + length (gap ++ NL :: ws) + adr_length mid) G).
Proof.
  induction gap as [|y gap IH]; intros n b Hws Hnone.
  - exists n. split; [lia|]. apply search_from_hit. cbn [app].
    apply (first_match_of_first r_adr (Cur n b (NL :: ws ++ L))
             (Cur (n + length (NL :: ws) + adr_length mid) true post) G).
    now apply r_adr_at_newline.
  - destruct (r_adr_before n b y (gap ++ NL :: ws) Hnone) as [H|H].
    + apply first_match_fails in H.
      destruct (IH (S n) (N.eqb y NL) Hws (none_starts_in_tail _ _ _ _ Hnone))
        as (st & Hst & E).
      exists st. split; [lia|].
      cbn [app search_from] in *. rewrite H, E. do 2 f_equal. simpl. lia.
    + exists n. split; [lia|]. apply search_from_hit.
      now apply first_match_of_first in H.
Qed.

End AddressLine.

Lemma starts_with_long p : forall a b,
  length p <= length a -> starts_with p (a ++ b) = starts_with p a.
Proof.
  induction p as [|x p IH]; intros [|y a] b H; simpl in *; auto; try lia.
  destruct (N.eqb x y); simpl; [|reflexivity]. apply IH. lia.
Qed.

Lemma contains_suffix p t1 : forall s,
  contains p (t1 ++ s) = false -> starts_with p s = false.
Proof.
  induction t1 as [|y t1 IH]; intros s H.
  - destruct s; simpl in H; apply orb_false_iff in H; tauto.
  - simpl in H. apply orb_false_iff in H. destruct H as [_ H]. now apply IH.
Qed.

Lemma contains_none_starts p t a b :
  contains p (t ++ a) = false -> length p <= S (length a) ->
  none_starts_in p t (a ++ b).
Proof.
  intros H Hlen t1 t2 E Hne. subst t. rewrite <- app_assoc in H.
  apply contains_suffix in H. rewrite app_assoc.
  rewrite starts_with_long; [assumption|].
  rewrite length_app. destruct t2; [congruence|]. simpl. lia.
Qed.

Lemma get_address_found chapter s t :
  re_search r_adr chapter (m_end (m s)) = Some t ->
  get_address chapter s =
    (Val (u "0x" ++ str_of_group (group "a1" (m_groups t))
                 ++ str_of_group (group "a2" (m_groups t))),
     St t (stdout s)).
Proof.
  intros H. unfold get_address, bind. rewrite get_nextm_eq. unfold lookup.
  rewrite H. reflexivity.
Qed.

Lemma get_address_missing chapter s :
  re_search r_adr chapter (m_end (m s)) = None ->
  get_address chapter s = (Val (u "FIXME"), s).
Proof.
  intros H. unfold get_address, bind. rewrite get_nextm_eq. unfold lookup.
  rewrite H. reflexivity.
Qed.

Lemma address_line_found
  (pre gap ws mid X Y post : str) (c : char) (s : state) :
  let chapter := pre ++ (gap ++ NL :: ws) ++ adr_line mid c X Y post in
  m_end (m s) = length pre ->
  contains (u "Address:") ((gap ++ NL :: ws) ++ u "Address") = false ->
  Forall (fun y => is_space y = true) ws ->
  Forall (fun y => y <> EQUALS) mid ->
  is_space c = true -> length X = 4 -> length Y = 4 ->
  exists t,
    get_address chapter s = (Val (u "0x" ++ X ++ Y), St t (stdout s))
    /\ length pre <= m_start t
    /\ m_end t = length pre + length (gap ++ NL :: ws) + adr_length mid.
Proof.
  intros chapter Hcur Hnone Hws Hmid Hc HX HY.
  assert (none_starts_in (u "Address:") (gap ++ NL :: ws)
            (adr_line mid c X Y post)) as Hnone'.
  { unfold adr_line. change (u "Address:") with (u "Address" ++ u ":") at 2.
    rewrite <- app_assoc.
    apply contains_none_starts; [assumption|]. simpl. lia. }
  destruct (search_adr mid X Y post c Hmid Hc HX HY gap ws
              (0 + length pre) (end_bol true pre) Hws Hnone')
    as (st & Hst & E).
  assert (re_search r_adr chapter (m_end (m s)) =
          Some (Match st (length pre + length (gap ++ NL :: ws)
                          + adr_length mid)
                  [("a2"%string, Y); ("a1"%string, X)])) as Hs.
  { unfold re_search, cursor_at, chapter. rewrite Hcur, cursor_from_app.
    unfold reached. cbn [pos bol rest]. exact E. }
  eexists. split; [|split].
  - rewrite (get_address_found _ _ _ Hs). reflexivity.
  - simpl. lia.
  - reflexivity.
Qed.

Lemma register_without_address chapter m0 s :
  re_search r_adr chapter (m_end m0) = None ->
  register chapter m0 s =
    field_table chapter
      (St m0 (stdout s
              ++ [register_line (str_of_group (group "rname" (m_groups m0)))
                    (u "FIXME")])).
Proof.
  intros H. unfold register. unfold bind at 1. unfold set_m.
  unfold bind at 1. rewrite get_address_missing by exact H.
  reflexivity.
Qed.

(** * The claims on the patterns *)

Ltac side :=
  first [ reflexivity
        | match goal with
          | |- Forall _ _ =>
              repeat (constructor;
                      try reflexivity;
                      try (intros H; vm_compute in H; discriminate H))
          end
        | vm_compute; reflexivity
        | simpl; lia
        | intros H; vm_compute in H; discriminate H
        | repeat (constructor;
                  try reflexivity;
                  try (intros H; vm_compute in H; discriminate H)) ].

(** ** C1: a chapter without a name *)

(** Every cursor of a text. *)
Definition cursors (n : nat) (b : bool) (s : str) : list cursor :=
  inside n b s [] ++ [reached n b s []].

Lemma cursor_from_in s : forall n b i c,
  cursor_from n b s i = Some c -> In c (cursors n b s).
Proof.
  unfold cursors. induction s as [|x s IH]; intros n b [|i] c H; simpl in H.
  - inversion H; subst. rewrite reached_nil. now left.
  - discriminate.
  - inversion H; subst. simpl. rewrite app_nil_r. now left.
  - apply IH in H. simpl. right. now rewrite reached_cons.
Qed.

Lemma cursors_from s : forall n b c,
  In c (cursors n b s) -> exists i, cursor_from n b s i = Some c.
Proof.
  unfold cursors. induction s as [|x s IH]; intros n b c H.
  - destruct H as [H|[]]. subst. exists 0. now rewrite reached_nil.
  - simpl in H. destruct H as [H|H].
    + subst. exists 0. simpl. now rewrite app_nil_r.
    + rewrite reached_cons in H. apply IH in H. destruct H as [i H].
      exists (S i). exact H.
Qed.

Lemma first_match_none r c :
  first_match r c = None <-> matches r c [] = [].
Proof.
  unfold first_match. destruct (matches r c []) as [|[c' g'] l]; split;
    intros H; try reflexivity; discriminate.
Qed.

Lemma r_name_matches s :
  matches r_name (Cur 0 true s) [] =
  flat_map (fun c => matches name_in_parentheses c []) (cursors 0 true s).
Proof.
  unfold r_name. rewrite matches_seq.
  change (matches Bol (Cur 0 true s) []) with [(Cur 0 true s, @nil (string * str))].
  cbn [flat_map fst snd]. rewrite app_nil_r.
  unfold lazy. rewrite matches_seq_rep, rep_lazy_any. reflexivity.
Qed.

(** [r_name.match(chapter)] is [None] exactly when no word in parentheses
    stands anywhere in the chapter. *)
Lemma r_name_nowhere (chapter : str) :
  re_match r_name chapter 0 = None
  <-> forall i, re_match name_in_parentheses chapter i = None.
Proof.
  unfold re_match, cursor_at. cbn [cursor_from].
  rewrite first_match_none, r_name_matches. split.
  - intros H i. destruct (cursor_from 0 true chapter i) as [c|] eqn:E;
      [|reflexivity].
    apply first_match_none. apply cursor_from_in in E.
    destruct (matches name_in_parentheses c []) as [|cg l] eqn:M;
      [reflexivity|].
    exfalso. assert (In cg []) as [].
    rewrite <- H. apply in_flat_map. exists c. split; [assumption|].
    rewrite M. now left.
  - intros H. apply flat_map_nil. intros c Hc.
    apply cursors_from in Hc. destruct Hc as [i Hi].
    specialize (H i). rewrite Hi in H. now apply first_match_none.
Qed.

(** C1: when the register-name pattern matches nowhere in a chapter (no
    word in parentheses stands anywhere in it), the run stops there by
    [exit()]: what the chapters before it printed is all that is printed, no
    line is added for this chapter, the chapters after it play no part, and
    the stop is [SystemExit], not an error. *)
Theorem no_name_stops_the_run
  (before : list str) (chapter : str) (after : list str) (s s1 : state) :
  (forall i, re_match name_in_parentheses chapter i = None) ->
  for_chapters before s = (Val tt, s1) ->
  for_chapters (before ++ chapter :: after) s = (Exn SystemExit, s1).
Proof.
  intros Hname Hbefore. apply r_name_nowhere in Hname.
  rewrite for_chapters_app, Hbefore. simpl.
  unfold bind, body. rewrite Hname. reflexivity.
Qed.

Lemma no_name_stops_the_run_witness :
  for_chapters ([chapter_regb] ++ chapter_prose :: [chapter_regb]) state0 =
  (Exn SystemExit, snd (for_chapters [chapter_regb] state0)).
Proof.
  apply (no_name_stops_the_run [chapter_regb] chapter_prose [chapter_regb]).
  - apply r_name_nowhere. vm_compute. reflexivity.
  - vm_compute. reflexivity.
Defined.

(** ** C4: the address *)

(** A chapter whose address line has letters that are no hexadecimal
    digits. *)
Definition chapter_odd_address : str :=
  text_of [u "Some Register (REGA)";
           u "Address: Base = WXYZ_QRSTh";
           u "Reset 0 Field Description";
           u "  31" ++ range_sep ++ u "0 value";
           u "  VAL"].

(** C4, as stated, fails: this chapter has no line "Address: ... =
    XXXX_YYYYh" with XXXX and YYYY hexadecimal, and its address is not
    FIXME: the eight characters WXYZQRST are printed after 0x. *)
Lemma address_is_not_checked_for_hex :
  re_search r_adr_as_specified chapter_odd_address 0 = None
  /\ main (u "1.2.3.4 " ++ chapter_odd_address) =
       ([u "REGA" ++ [TAB; TAB; TAB] ++ u "0xWXYZQRST"; TAB :: u ":VAL:31-0"],
        Finished).
Proof. vm_compute. split; reflexivity. Qed.

(** C4, amended: when the first line "Address: ... = XXXX_YYYYh" forward of
    the name match has any four characters as XXXX and as YYYY (hexadecimal
    or not), a white-space character after the equals sign and no other
    equals sign before it, the address is 0x followed by XXXXYYYY and the
    cursor moves behind the line; when the pattern matches nowhere forward
    of the name match the address is FIXME, the register line is printed
    with it and the chapter goes on with its field table. *)
Theorem address_of_the_first_address_line
  (pre gap ws mid X Y post : str) (c : char) (s : state)
  (chapter' : str) (m0 : rmatch) (s' : state) :
  let chapter := pre ++ (gap ++ NL :: ws) ++ adr_line mid c X Y post in
  m_end (m s) = length pre ->
  contains (u "Address:") ((gap ++ NL :: ws) ++ u "Address") = false ->
  Forall (fun y => is_space y = true) ws ->
  Forall (fun y => y <> EQUALS) mid ->
  is_space c = true -> length X = 4 -> length Y = 4 ->
  (exists t,
     get_address chapter s = (Val (u "0x" ++ X ++ Y), St t (stdout s))
     /\ length pre <= m_start t
     /\ m_end t = length pre + length (gap ++ NL :: ws) + adr_length mid)
  /\ (re_search r_adr chapter' (m_end m0) = None ->
      register chapter' m0 s' =
        field_table chapter'
          (St m0
              (stdout s'
               ++ [register_line (str_of_group (group "rname" (m_groups m0)))
                     (u "FIXME")]))).
Proof.
  intros chapter Hcur Hnone Hws Hmid Hc HX HY. split.
  - now apply address_line_found.
  - apply register_without_address.
Qed.

(** "... Register Foo (REGA) ..." and, later, "Address: Base + offset =
    ABCD_EF01h". *)
Definition chapter_rega : str :=
  text_of [u "Control Register Foo (REGA) of the block";
           u "more text";
           u "  Address: Base + offset = ABCD_EF01h";
           u "Reset 0 Field Description"].

Lemma address_of_the_first_address_line_witness :
  (exists t,
     get_address chapter_rega (St (Match 0 27 [("rname"%string, u "REGA")]) [])
       = (Val (u "0xABCDEF01"), St t [])
     /\ 27 <= m_start t /\ m_end t = 89)
  /\ register chapter_no_table (Match 0 21 [("rname"%string, u "REGP")])
       state0 =
     field_table chapter_no_table
       (St (Match 0 21 [("rname"%string, u "REGP")])
           [u "REGP" ++ [TAB; TAB; TAB] ++ u "FIXME"]).
Proof.
  destruct (address_of_the_first_address_line
              (u "Control Register Foo (REGA)")
              (u " of the block" ++ NL :: u "more text") (u "  ")
              (u " Base + offset ") (u "ABCD") (u "EF01")
              (u "Reset 0 Field Description" ++ [NL]) 32%N
              (St (Match 0 27 [("rname"%string, u "REGA")]) [])
              chapter_no_table (Match 0 21 [("rname"%string, u "REGP")])
              state0)
    as [H1 H2]; [side ..|].
  split; [exact H1|]. apply H2. vm_compute. reflexivity.
Defined.

(** ** C5: a name in two fragments *)

Definition chapter_two_fragments : str :=
  text_of [u "Split Register (REGS)";
           u "Reset 0 Field Description";
           u "  6 y";
           u "  CTRL_ a";
           u "  EN b"].



(** "CTRL_" and then "EN" make the one name CTRL_EN of the field line. *)
Example two_fragments_lines :
  main (u "1.2.3.4 " ++ chapter_two_fragments) =
  ([u "REGS" ++ [TAB; TAB; TAB] ++ u "FIXME"; TAB :: u ":CTRL_EN:6"],
   Stopped (RuntimeError "cannot find fldname")).
Proof. vm_compute. reflexivity. Qed.

(** ** C6: which words are names *)

Definition chapter_odd_names : str :=
  text_of [u "Some Register (REGN)";
           u "Reset 0 Field Description";
           u "  31" ++ range_sep ++ u "0 value";
           u "  2ND";
           u "  Fields";
           u "  OK"].

(** C6, as stated, fails: "2ND" only begins with a digit and "Fields" only
    begins with "Field", and neither is accepted as a name: the name line
    pattern matches neither line, and the name given to the range is the
    word of the third line. *)
Lemma leading_digit_or_Field_is_refused :
  re_search r_fldname (text_of [[]; u "  2ND"]) 0 = None
  /\ re_search r_fldname (text_of [[]; u "  Fields"]) 0 = None
  /\ main (u "1.2.3.4 " ++ chapter_odd_names) =
       ([u "REGN" ++ [TAB; TAB; TAB] ++ u "FIXME"; TAB :: u ":OK:31-0"],
        Finished).
Proof. vm_compute. repeat split; reflexivity. Qed.

(** ** The bit-range line *)

Lemma digit_not_space x : is_digit x = true -> is_space x = false.
Proof. intros H. apply word_not_space. now apply digit_is_word. Qed.

Lemma space_not_digit x : is_space x = true -> is_digit x = false.
Proof.
  intros H. destruct (is_digit x) eqn:E; [|reflexivity].
  apply digit_not_space in E. congruence.
Qed.

(** ** C6: the words the name line refuses *)

Lemma runs_nonempty k hi n b s :
  exists c l, runs k hi n b s = c :: l.
Proof. destruct s; simpl; eauto. Qed.

Lemma plus_matches k n b x t g :
  in_class k x = true -> matches (plus k) (Cur n b (x :: t)) g <> [].
Proof.
  intros H. unfold plus. cbn [matches]. unfold rep.
  cbn [pos bol rest runs]. rewrite H. cbn [skipn].
  destruct (runs_nonempty k None (S n) (N.eqb x NL) t) as (c & l & ->).
  intros E. apply map_eq_nil in E.
  assert (length (rev (c :: l)) = 0) as L by now rewrite E.
  rewrite length_rev in L. discriminate L.
Qed.

Lemma strip_some p : forall n b s,
  starts_with p s = true -> exists c, strip p n b s = Some c.
Proof.
  induction p as [|x p IH]; intros n b [|y s] H; simpl in *;
    try discriminate; eauto.
  destruct (N.eqb x y); simpl in H; [auto|discriminate].
Qed.

(** A word that begins with a digit or with "Field" is stopped by the
    two lookaheads of the name. *)
Lemma nnf_blocks n b x t g :
  is_digit x = true \/ starts_with (u "Field") (x :: t) = true ->
  matches not_number_nor_Field (Cur n b (x :: t)) g = [].
Proof.
  intros H. unfold not_number_nor_Field. rewrite matches_seq.
  destruct (is_digit x) eqn:Hd.
  - assert (matches (NotAhead (plus Digit)) (Cur n b (x :: t)) g = []) as ->.
    { cbn [matches].
      destruct (matches (plus Digit) (Cur n b (x :: t)) g) eqn:E;
        [|reflexivity].
      exfalso. revert E. apply plus_matches. exact Hd. }
    reflexivity.
  - destruct H as [H|H]; [discriminate|].
    assert (matches (NotAhead (plus Digit)) (Cur n b (x :: t)) g
            = [(Cur n b (x :: t), g)]) as ->.
    { unfold plus. cbn [matches]. unfold rep.
      cbn [pos bol rest runs in_class]. rewrite Hd. reflexivity. }
    cbn [flat_map fst snd]. rewrite app_nil_r. unfold txt.
    cbn [matches pos bol rest].
    destruct (strip_some (u "Field") n b (x :: t) H) as [c ->].
    reflexivity.
Qed.

Lemma fld_reserved_other n b y t g :
  N.eqb 45 y = false -> N.eqb 82 y = false ->
  matches fld_reserved (Cur n b (y :: t)) g = [].
Proof.
  intros H1 H2. unfold fld_reserved, txt. rewrite matches_alt.
  rewrite !fails_lit; [reflexivity| |].
  - change (u "Reserved") with (82%N :: u "eserved").
    cbn [starts_with]. now rewrite H2.
  - change (u "-") with [45%N]. cbn [starts_with]. now rewrite H1.
Qed.

Lemma no_word_here n b y t :
  is_word y = false -> rep Word 1 None true (Cur n b (y :: t)) = [].
Proof.
  intros H. unfold rep. cbn [pos bol rest runs in_class]. rewrite H.
  reflexivity.
Qed.

(** None of the three alternatives of the name begins at a white-space
    character, at a digit or at "Field". *)
Lemma no_name_at n b y t g :
  is_space y = true \/ is_digit y = true
  \/ starts_with (u "Field") (y :: t) = true ->
  matches (fld_reserved || fld_multi || fld_solo)%re (Cur n b (y :: t)) g = [].
Proof.
  intros H. rewrite !matches_alt.
  assert (N.eqb 45 y = false /\ N.eqb 82 y = false) as [H45 H82].
  { split.
    - destruct (N.eqb_spec 45 y) as [E|E]; [|reflexivity]. subst y.
      destruct H as [H|[H|H]]; vm_compute in H; discriminate H.
    - destruct (N.eqb_spec 82 y) as [E|E]; [|reflexivity]. subst y.
      destruct H as [H|[H|H]]; vm_compute in H; discriminate H. }
  rewrite (fld_reserved_other _ _ _ _ _ H45 H82). cbn [app].
  unfold fld_multi, fld_solo. rewrite !matches_seq.
  destruct H as [H|H].
  - assert (is_digit y = false) as Hd by now apply space_not_digit.
    assert (starts_with (u "Field") (y :: t) = false) as Hf.
    { change (u "Field") with (70%N :: u "ield"). cbn [starts_with].
      destruct (N.eqb_spec 70 y) as [E|E]; [|reflexivity]. subst y.
      vm_compute in H. discriminate H. }
    rewrite !(nnf_passes _ _ _ _ g Hd Hf). cbn [flat_map fst snd].
    rewrite !app_nil_r, !matches_grp. unfold plus.
    rewrite matches_seq_rep.
    assert (is_word y = false) as Hw by now apply space_not_word.
    cbn [matches]. rewrite (no_word_here _ _ _ _ Hw). reflexivity.
  - rewrite !(nnf_blocks _ _ _ _ g H). reflexivity.
Qed.

Lemma matches_newline n b t g r :
  matches (chr NL >> r)%re (Cur n b (NL :: t)) g
  = matches r (Cur (S n) true t) g.
Proof.
  rewrite matches_seq. unfold chr. cbn [matches rest in_class].
  rewrite N.eqb_refl. cbn. now rewrite app_nil_r.
Qed.

Lemma r_fldname_refuses n b sp x t :
  Forall (fun y => is_space y = true) sp -> length sp <= 13 ->
  is_digit x = true \/ starts_with (u "Field") (x :: t) = true ->
  first_match r_fldname (Cur n b (NL :: sp ++ x :: t)) = None.
Proof.
  intros Hsp Hlen Hx. apply first_match_none.
  unfold r_fldname. rewrite matches_newline.
  unfold range. rewrite matches_seq_rep. apply flat_map_nil.
  intros c Hc.
  assert (is_space x = false) as Hns.
  { destruct Hx as [Hx|Hx]; [now apply digit_not_space|].
    change (u "Field") with (70%N :: u "ield") in Hx. cbn [starts_with] in Hx.
    apply andb_true_iff in Hx. destruct Hx as [Hx _].
    apply N.eqb_eq in Hx. subst x. reflexivity. }
  apply in_rep_known in Hc; [|exact Hsp|exact Hlen|exact Hns].
  destruct Hc as [Hc| ->].
  - apply in_inside in Hc. destruct Hc as (p1 & y & p2 & A & B & _).
    destruct c as [n' b' r']. cbn [rest] in B. subst r'.
    apply no_name_at. left.
    rewrite Forall_forall in Hsp. apply Hsp. rewrite A.
    apply in_or_app. right. now left.
  - unfold reached. apply no_name_at. right. exact Hx.
Qed.

Lemma end_bol_newline b p : end_bol b (p ++ [NL]) = true.
Proof. unfold end_bol. rewrite fold_left_app. reflexivity. Qed.

(** The search for the name passes over a line that begins, after at most
    13 white-space characters, with a digit or with "Field". *)
Lemma r_fldname_passes_over pre gap sp x t :
  Forall (fun y => y <> NL) gap ->
  Forall (fun y => is_space y = true) sp -> length sp <= 13 ->
  is_digit x = true \/ starts_with (u "Field") (x :: t) = true ->
  re_search r_fldname (pre ++ gap ++ NL :: sp ++ x :: t) (length pre)
  = re_search r_fldname (pre ++ gap ++ NL :: sp ++ x :: t)
      (S (length pre + length gap)).
Proof.
  intros Hgap Hsp Hlen Hx. unfold re_search, cursor_at.
  rewrite cursor_from_app. unfold reached. cbn [pos bol rest].
  change r_fldname
    with (chr NL >> range 0 13 Space
          >> (fld_reserved || fld_multi || fld_solo))%re.
  rewrite search_from_next_line by assumption.
  change (chr NL >> range 0 13 Space
          >> (fld_reserved || fld_multi || fld_solo))%re with r_fldname.
  cbn [search_from]. rewrite r_fldname_refuses by assumption.
  replace (pre ++ gap ++ NL :: sp ++ x :: t)
    with ((pre ++ gap ++ [NL]) ++ sp ++ x :: t)
    by (now rewrite <- !app_assoc).
  replace (S (length pre + length gap)) with (length (pre ++ gap ++ [NL]))
    by (rewrite !length_app; simpl; lia).
  rewrite cursor_from_app. unfold reached. cbn [pos bol rest].
  rewrite app_assoc, end_bol_newline, N.eqb_refl.
  f_equal. rewrite !length_app. simpl. lia.
Qed.

(** C6, amended: field-name resolution accepts as a complete field name
    every whole word on the first line after the cursor (the page-break
    boilerplate skipped when it stands there), after at most 13 white-space
    characters, that does not begin with a digit, does not begin with
    "Field" or "Reserved", and does not end in an underscore; the cursor
    moves to the end of the word.  A word that begins with a digit or with
    "Field" is not accepted, whatever follows in it: the search for the
    name passes over its line and gives what it gives from behind the
    newline of that line, so that no match starts there. *)
Theorem get_fldname_whole_word
  (pre gap sp w post fieldname : str) (x : char) (s : state) :
  let chapter := pre ++ gap ++ NL :: sp ++ (x :: w) ++ post in
  Forall (fun y => y <> NL) gap ->
  Forall (fun y => is_space y = true) sp -> length sp <= 13 ->
  (m_end (m (after_pagebreak chapter s)) = length pre ->
   Forall (fun y => is_word y = true) (x :: w) ->
   stops_before Word post ->
   is_digit x = false ->
   starts_with (u "Field") (x :: w) = false ->
   starts_with (u "Reserved") (x :: w) = false ->
   last (x :: w) 0%N <> UNDERSCORE ->
   get_fldname chapter fieldname s =
     (Val (Some (fieldname ++ x :: w)),
      St (Match (length pre + length gap)
                (S (length pre + length gap) + length sp + length (x :: w))
                [("fldname_solo"%string, x :: w)])
         (stdout s)))
  /\ (is_digit x = true \/ starts_with (u "Field") (x :: w) = true ->
      re_search r_fldname chapter (length pre)
      = re_search r_fldname chapter (S (length pre + length gap))
      /\ forall t, re_search r_fldname chapter (length pre) = Some t ->
                   length pre + length gap < m_start t).
Proof.
  intros chapter Hgap Hsp Hlen. split.
  - intros Hcur Hw Hpost Hd Hf Hr Hlast.
    now apply get_fldname_accepts.
  - intros Hx.
    assert (is_digit x = true
            \/ starts_with (u "Field") (x :: w ++ post) = true) as Hx'.
    { destruct Hx as [Hx|Hx]; [now left|right].
      destruct (starts_with (u "Field") (x :: w ++ post)) eqn:E;
        [reflexivity|].
      change (x :: w ++ post) with ((x :: w) ++ post) in E.
      clear - Hx E. revert E Hx. generalize (x :: w) (u "Field").
      intros l p. revert l.
      induction p as [|a p IH]; intros [|y l]; simpl; try discriminate.
      destruct (N.eqb a y); simpl; [apply IH|discriminate]. }
    pose proof (r_fldname_passes_over pre gap sp x (w ++ post)
                  Hgap Hsp Hlen Hx') as E.
    change (re_search r_fldname chapter (length pre)
            = re_search r_fldname chapter (S (length pre + length gap)))
      in E.
    split; [exact E|].
    intros t Ht. rewrite E in Ht. apply re_search_spec in Ht. lia.
Qed.

Lemma get_fldname_whole_word_witness :
  get_fldname (text_of [u "  7 on"; u "  CTRL_EN text"]) []
    (St (Match 0 6 []) []) =
  (Val (Some (u "CTRL_EN")),
   St (Match 6 16 [("fldname_solo"%string, u "CTRL_EN")]) []).
Proof.
  refine (proj1 (get_fldname_whole_word (u "  7 on") [] (u "  ")
                   (u "TRL_EN") (u " text" ++ [NL]) [] 67%N
                   (St (Match 0 6 []) []) _ _ _)
            _ _ _ _ _ _ _); side.
Defined.

Lemma rest_of_line_first n b tail post g :
  Forall (fun y => y <> NL) tail ->
  first (star NotNL >> Ahead (chr NL)) (Cur n b (tail ++ NL :: post)) g
        (reached n b tail (NL :: post)) g.
Proof.
  intros Htail. unfold star. apply first_seq_greedy; simpl; auto.
  - eapply Forall_impl; [|exact Htail]. intros y Hy. simpl.
    apply negb_true_iff. now apply N.eqb_neq.
  - lia.
  - unfold reached, chr. eapply first_ahead. apply first_one. reflexivity.
Qed.

Lemma number_first name n b p q g :
  Forall (fun y => is_digit y = true) p -> p <> [] -> stops_before Digit q ->
  first (Grp name (plus Digit)) (Cur n b (p ++ q)) g
        (Cur (n + length p) (end_bol b p) q) ((name, p) :: g).
Proof.
  intros Hp Hne Hq. apply first_grp_known. unfold plus.
  apply (first_greedy Digit 1 None n b p q g); simpl; auto.
  destruct p; [congruence|simpl; lia].
Qed.

(** A line with one bit number. *)
Lemma r_field_lone n b sp bit c tail post :
  Forall (fun y => is_space y = true) sp -> 2 <= length sp <= 12 ->
  Forall (fun y => is_digit y = true) bit -> bit <> [] ->
  is_space c = true -> Forall (fun y => y <> NL) tail ->
  first r_field (Cur n b (NL :: sp ++ bit ++ c :: tail ++ NL :: post)) []
        (reached (S (S n + length sp + length bit))
                 (N.eqb c NL) tail (NL :: post))
        [("endbit"%string, bit)].
Proof.
  intros Hsp Hlen Hbit Hne Hc Htail. unfold r_field.
  eapply first_seq; [unfold chr; apply first_one; reflexivity|].
  unfold range. apply first_seq_greedy; auto.
  { simpl; lia. }
  { destruct bit as [|d bit]; [congruence|]. simpl. inversion Hbit; subst.
    now apply digit_not_space. }
  { lia. }
  unfold reached at 1.
  eapply first_seq.
  { apply number_first; auto. simpl. now apply space_not_digit. }
  eapply first_seq.
  { apply first_alt_r.
    - rewrite matches_seq. rewrite fails_lit; [reflexivity|].
      cbn [starts_with range_sep]. apply andb_false_iff. left.
      apply N.eqb_neq. intros E. subst c. discriminate.
    - apply first_one. exact Hc. }
  now apply rest_of_line_first.
Qed.

(** A line with two numbers and, between them, the three characters of
    [range_sep]. *)
Lemma r_field_pair n b sp high low tail post :
  Forall (fun y => is_space y = true) sp -> 2 <= length sp <= 12 ->
  Forall (fun y => is_digit y = true) high -> high <> [] ->
  Forall (fun y => is_digit y = true) low -> low <> [] ->
  stops_before Digit tail -> Forall (fun y => y <> NL) tail ->
  first r_field
        (Cur n b (NL :: sp ++ high ++ range_sep ++ low ++ tail ++ NL :: post))
        []
        (reached (S n + length sp + length high + length range_sep
                  + length low)
                 (end_bol (end_bol (end_bol (end_bol true sp) high) range_sep)
                    low)
                 tail (NL :: post))
        [("startbit"%string, low); ("endbit"%string, high)].
Proof.
  intros Hsp Hlen Hhigh Hne Hlow Hne' Hstop Htail. unfold r_field.
  eapply first_seq; [unfold chr; apply first_one; reflexivity|].
  unfold range. apply first_seq_greedy; auto.
  { simpl; lia. }
  { destruct high as [|d high]; [congruence|]. simpl. inversion Hhigh; subst.
    now apply digit_not_space. }
  { lia. }
  unfold reached at 1.
  eapply first_seq.
  { apply number_first; auto. reflexivity. }
  eapply first_seq.
  { apply first_alt_l. eapply first_seq; [apply first_lit|].
    unfold reached. apply number_first; auto.
    destruct tail; [reflexivity|exact Hstop]. }
  now apply rest_of_line_first.
Qed.

(** One turn of the field loop that finds a range and a name. *)
Lemma field_loop_turn chapter n b s t name s2 :
  re_search r_field chapter (m_end (m s)) = Some t ->
  get_fldname chapter [] (St t (stdout s)) = (Val (Some name), s2) ->
  name <> [] ->
  let high := group "endbit" (m_groups t) in
  let low := group "startbit" (m_groups t) in
  let fld :=
    match low with
    | Some l => str_of_group high ++ u "-" ++ l
    | None => str_of_group high
    end in
  field_loop chapter (S n) b s =
  field_loop chapter n (Bits high low (Some fld))
    (St (m s2) (stdout s2 ++ [field_line name fld])).
Proof.
  intros Ht Hname Hne high low fld. cbn [field_loop].
  unfold bind at 1. rewrite get_nextm_eq. unfold lookup. rewrite Ht.
  cbv beta iota. unfold negb. unfold bind at 1. unfold get_m at 1.
  cbn [m m_groups]. unfold bind at 1. rewrite Hname.
  unfold bind at 1. rewrite (truthy_some _ Hne). reflexivity.
Qed.

Lemma r_field_unfold :
  r_field =
  (chr NL >> range 2 12 Space >> Grp "endbit" (plus Digit)
   >> ((Lit range_sep >> Grp "startbit" (plus Digit)) || One Space)
   >> star NotNL >> Ahead (chr NL))%re.
Proof. reflexivity. Qed.

(** X9: the field line of a lone bit number carries that number alone. *)
Lemma lone_bit_turn
  (pre gap sp bit tail post name : str) (c : char) (b : bits)
  (s s2 : state) (n : nat) :
  let chapter := pre ++ gap ++ NL :: sp ++ bit ++ c :: tail ++ NL :: post in
  let t :=
    Match (length pre + length gap)
          (S (S (length pre + length gap) + length sp + length bit)
           + length tail)
          [("endbit"%string, bit)] in
  m_end (m s) = length pre ->
  Forall (fun y => y <> NL) gap ->
  Forall (fun y => is_space y = true) sp -> 2 <= length sp <= 12 ->
  Forall (fun y => is_digit y = true) bit -> bit <> [] ->
  is_space c = true -> Forall (fun y => y <> NL) tail ->
  get_fldname chapter [] (St t (stdout s)) = (Val (Some name), s2) ->
  name <> [] ->
  field_loop chapter (S n) b s =
  field_loop chapter n (Bits (Some bit) None (Some bit))
    (St (m s2) (stdout s2 ++ [field_line name bit])).
Proof.
  intros chapter t Hcur Hgap Hsp Hlen Hbit Hne Hc Htail Hname Hne'.
  pose proof (r_field_lone (length pre + length gap)
                (end_bol (end_bol true pre) gap) sp bit c tail post
                Hsp Hlen Hbit Hne Hc Htail) as H1.
  apply first_match_of_first in H1. rewrite r_field_unfold in H1.
  apply (re_search_next_line _ pre gap _ _ Hgap) in H1.
  rewrite <- r_field_unfold in H1. fold chapter in H1.
  rewrite <- Hcur in H1 at 1.
  apply (field_loop_turn chapter n b s _ name s2 H1); assumption.
Qed.

(** X10: the field line of a pair written with [range_sep] carries
    HIGH-LOW. *)
Lemma pair_turn
  (pre gap sp high low tail post name : str) (b : bits)
  (s s2 : state) (n : nat) :
  let chapter :=
    pre ++ gap ++ NL :: sp ++ high ++ range_sep ++ low ++ tail ++ NL :: post in
  let t :=
    Match (length pre + length gap)
          (S (length pre + length gap) + length sp + length high
           + length range_sep + length low + length tail)
          [("startbit"%string, low); ("endbit"%string, high)] in
  m_end (m s) = length pre ->
  Forall (fun y => y <> NL) gap ->
  Forall (fun y => is_space y = true) sp -> 2 <= length sp <= 12 ->
  Forall (fun y => is_digit y = true) high -> high <> [] ->
  Forall (fun y => is_digit y = true) low -> low <> [] ->
  stops_before Digit tail -> Forall (fun y => y <> NL) tail ->
  get_fldname chapter [] (St t (stdout s)) = (Val (Some name), s2) ->
  name <> [] ->
  field_loop chapter (S n) b s =
  field_loop chapter n
    (Bits (Some high) (Some low) (Some (high ++ u "-" ++ low)))
    (St (m s2) (stdout s2 ++ [field_line name (high ++ u "-" ++ low)])).
Proof.
  intros chapter t Hcur Hgap Hsp Hlen Hhigh Hne Hlow Hne' Hstop Htail
         Hname Hne''.
  pose proof (r_field_pair (length pre + length gap)
                (end_bol (end_bol true pre) gap) sp high low tail post
                Hsp Hlen Hhigh Hne Hlow Hne' Hstop Htail) as H1.
  apply first_match_of_first in H1. rewrite r_field_unfold in H1.
  apply (re_search_next_line _ pre gap _ _ Hgap) in H1.
  rewrite <- r_field_unfold in H1. fold chapter in H1.
  rewrite <- Hcur in H1 at 1.
  apply (field_loop_turn chapter n b s _ name s2 H1); assumption.
Qed.

(** ** C8: the range of a field line *)

Definition chapter_en_dash : str :=
  text_of [u "Some Register (REGB)";
           u " Address: Base = 0000_0010h";
           u " Reset 0 Field Description";
           u "  31" ++ [en_dash] ++ u "16 control";
           u "  CTRL"].

Definition chapter_lone_bit : str :=
  text_of [u "Some Register (REGB)";
           u " Address: Base = 0000_0010h";
           u " Reset 0 Field Description";
           u "  31 control";
           u "  CTRL";
           u "  30" ++ range_sep ++ u "0 rest";
           u "  Reserved"].

(** C8: a line with a lone bit number gives a field line with that number
    alone, and a pair is printed HIGH-LOW when the two numbers are
    separated by the three characters the pattern holds.  A line written
    with the en dash, U+2013, is no bit range for the pattern: 31-16 is never
    printed for it, and its name gets the range 31-0 of the recovery after
    the loop. *)
Theorem en_dash_line_is_no_range :
  main (u "1.2.3.4 " ++ chapter_lone_bit) =
    ([u "REGB" ++ [TAB; TAB; TAB] ++ u "0x00000010"; TAB :: u ":CTRL:31"],
     Finished)
  /\ re_search r_field
       (text_of [[]; u "  31" ++ range_sep ++ u "16 control"; u "  CTRL"]) 0
     = Some (Match 0 18 [("startbit"%string, u "16");
                         ("endbit"%string, u "31")])
  /\ re_search r_field
       (text_of [[]; u "  31" ++ [en_dash] ++ u "16 control"; u "  CTRL"]) 0
     = None
  /\ main (u "1.2.3.4 " ++ chapter_en_dash) =
       ([u "REGB" ++ [TAB; TAB; TAB] ++ u "0x00000010";
         TAB :: u ":CTRL:31-0"],
        Finished).
Proof. vm_compute. repeat split; reflexivity. Qed.

(** * The run ends by itself *)

(** ** The numbers of a bit range are decimal *)



Definition decimal (p : str) : Prop :=
  p <> [] /\ Forall (fun x => is_digit x = true) p.








Lemma digit_value_in_some t x :
  in_ranges t x = true -> exists d, digit_value_in t x = Some d.
Proof.
  induction t as [|[lo hi] t IH]; [discriminate|].
  rewrite in_ranges_cons. cbn [digit_value_in]. intros H.
  destruct (between lo hi x); [eauto|]. now apply IH.
Qed.

Lemma int_acc_decimal p : forall acc,
  Forall (fun x => is_digit x = true) p -> exists z, int_acc acc p = Some z.
Proof.
  induction p as [|x p IH]; intros acc H; cbn [int_acc]; [eauto|].
  inversion H; subst.
  destruct (digit_value_in_some digit_ranges x H2) as [d Hd].
  unfold digit_value. rewrite Hd. now apply IH.
Qed.

(** [int] raises on a group of digits only beyond 4300 of them. *)
Lemma int_decimal p :
  decimal p -> length p <= 4300 -> exists z, int p = Some z.
Proof.
  intros [Hne H] Hlen. unfold int. destruct p as [|x p]; [congruence|].
  destruct (Nat.ltb_spec 4300 (length (x :: p))); [lia|].
  now apply int_acc_decimal.
Qed.



(** * Further properties of parse_trm_to_devregs.py *)

Ltac chars :=
  repeat constructor; try discriminate; try reflexivity.

(** * More of the scanner *)

(** ** No page break under fourteen white-space characters *)

Lemma runs_length_known k p q hi n b :
  Forall (fun x => in_class k x = true) p -> within hi p ->
  stops_before k q ->
  length (runs k hi n b (p ++ q)) = S (length p).
Proof.
  intros Hp Hhi Hq. rewrite runs_known by assumption.
  rewrite length_app, inside_length. simpl. lia.
Qed.

Lemma rep_too_short k lo n b p q :
  Forall (fun x => in_class k x = true) p -> stops_before k q ->
  length p < lo ->
  rep k lo None true (Cur n b (p ++ q)) = [].
Proof.
  intros Hp Hq Hlo. unfold rep. cbn [pos bol rest].
  rewrite skipn_all2; [reflexivity|].
  rewrite runs_length_known; simpl; auto. 
Qed.

Lemma matches_eps c g : matches Eps c g = [(c, g)].
Proof. reflexivity. Qed.

Lemma r_pagebreak_needs_spaces n b p q :
  Forall (fun x => is_space x = true) p -> stops_before Space q ->
  length p < 14 ->
  matches r_pagebreak (Cur n b (p ++ q)) [] = [].
Proof.
  intros Hp Hq Hlen. unfold r_pagebreak, opt.
  rewrite matches_seq, matches_alt.
  assert (matches (atleast 14 Space >> star NotNL >> chr NL)
            (Cur n b (p ++ q)) [] = []) as ->.
  { unfold atleast. rewrite matches_seq_rep.
    rewrite rep_too_short by assumption. reflexivity. }
  rewrite matches_eps. cbn [app flat_map fst snd]. rewrite app_nil_r.
  unfold atleast. rewrite matches_seq_rep.
  rewrite rep_too_short; [reflexivity|assumption|assumption|lia].
Qed.

(** X7: the page-break step of [get_fldname] leaves the state as it is
    where fewer than 14 white-space characters stand at the cursor. *)
Theorem no_pagebreak_under_14_spaces
  (pre p q : str) (s : state) :
  m_end (m s) = length pre ->
  Forall (fun x => is_space x = true) p -> stops_before Space q ->
  length p < 14 ->
  get_nextm (pre ++ p ++ q) r_pagebreak false s = (Val false, s).
Proof.
  intros Hcur Hp Hq Hlen. rewrite get_nextm_eq. unfold lookup, re_match.
  unfold cursor_at. rewrite Hcur, cursor_from_app. unfold reached.
  rewrite (proj2 (first_match_none _ _)); [reflexivity|].
  now apply r_pagebreak_needs_spaces.
Qed.

Lemma no_pagebreak_under_14_spaces_witness :
  get_nextm (u "EN" ++ u "     " ++ u "x") r_pagebreak false
    (St (Match 0 2 []) [])
  = (Val false, St (Match 0 2 []) []).
Proof.
  apply (no_pagebreak_under_14_spaces (u "EN") (u "     ") (u "x")
           (St (Match 0 2 []) [])).
  - reflexivity.
  - chars.
  - reflexivity.
  - simpl. lia.
Defined.

(** ** A reserved name line *)

Lemma strip_prefix_first p n b q g :
  first (Lit p) (Cur n b (p ++ q)) g (reached n b p q) g.
Proof. apply first_lit. Qed.

Lemma first_no_groups_solo_multi (g : groups) :
  g = [] ->
  truthy (group "fldname_solo" g) = false
  /\ truthy (group "fldname_multi" g) = false.
Proof. intros ->. split; reflexivity. Qed.

(** The name line pattern on a line that begins with a dash or with
    "Reserved". *)
Lemma r_fldname_reserved n b sp mark post :
  Forall (fun y => is_space y = true) sp -> length sp <= 13 ->
  mark = u "-" \/ mark = u "Reserved" ->
  first r_fldname (Cur n b (NL :: sp ++ mark ++ post)) []
        (reached (S n + length sp) (end_bol true sp) mark post) [].
Proof.
  intros Hsp Hlen Hmark. unfold r_fldname.
  eapply first_seq; [unfold chr; apply first_one; reflexivity|].
  unfold range. apply first_seq_greedy; auto.
  { destruct Hmark as [-> | ->]; reflexivity. }
  { lia. }
  unfold reached at 1. apply first_alt_l, first_alt_l. unfold fld_reserved, txt.
  destruct Hmark as [-> | ->].
  - apply first_alt_l. apply first_lit.
  - apply first_alt_r; [|apply first_lit].
    apply fails_lit. reflexivity.
Qed.

(** X8: a name line that begins with a dash or with "Reserved" (whatever
    follows on it) gives no name: [get_fldname] returns [False], and the
    fragments gathered so far are dropped with it. *)
Theorem get_fldname_reserved
  (pre gap sp mark post fieldname : str) (s : state) (k : nat) :
  let chapter := pre ++ gap ++ NL :: sp ++ mark ++ post in
  m_end (m (after_pagebreak chapter s)) = length pre ->
  Forall (fun y => y <> NL) gap ->
  Forall (fun y => is_space y = true) sp -> length sp <= 13 ->
  mark = u "-" \/ mark = u "Reserved" ->
  get_fldname_rec chapter (S k) fieldname s =
    (Val None,
     St (Match (length pre + length gap)
               (S (length pre + length gap) + length sp + length mark) [])
        (stdout s)).
Proof.
  intros chapter Hcur Hgap Hsp Hlen Hmark.
  pose proof (r_fldname_reserved (length pre + length gap)
                (end_bol (end_bol true pre) gap) sp mark post
                Hsp Hlen Hmark) as H1.
  apply first_match_of_first in H1.
  apply (re_search_next_line _ pre gap _ _ Hgap) in H1.
  fold chapter in H1.
  cbn [get_fldname_rec].
  destruct (pagebreak_step chapter s) as (b1 & E1 & Hout).
  unfold bind at 1. rewrite E1.
  unfold bind at 1. rewrite get_nextm_eq. unfold lookup.
  rewrite Hcur, Hout.
  change r_fldname
    with (chr NL >> range 0 13 Space
          >> (fld_reserved || fld_multi || fld_solo))%re.
  rewrite H1. reflexivity.
Qed.

Lemma get_fldname_reserved_witness :
  get_fldname_rec
    (u "7 rw" ++ [] ++ NL :: u "  " ++ u "Reserved" ++ u " bits" ++ [NL])
    1 (u "CTRL_") (St (Match 0 4 []) [])
  = (Val None, St (Match 4 15 []) []).
Proof.
  apply (get_fldname_reserved (u "7 rw") [] (u "  ") (u "Reserved")
           (u " bits" ++ [NL]) (u "CTRL_") (St (Match 0 4 []) []) 0).
  - vm_compute. reflexivity.
  - constructor.
  - chars.
  - simpl. lia.
  - right. reflexivity.
Defined.

(** ** The register name is the first word in parentheses *)

(** The first result of [f] over a list. *)
Fixpoint find_first {A B} (f : A -> option B) (l : list A) : option B :=
  match l with
  | [] => None
  | x :: l' => match f x with Some y => Some y | None => find_first f l' end
  end.

Lemma search_from_cursors r : forall s n b,
  search_from r n b s = find_first (first_match r) (cursors n b s).
Proof.
  unfold cursors. induction s as [|x s IH]; intros n b.
  - simpl. rewrite reached_nil.
    destruct (first_match r (Cur n b [])); reflexivity.
  - cbn [search_from inside app find_first]. rewrite app_nil_r.
    destruct (first_match r (Cur n b (x :: s))); [reflexivity|].
    rewrite IH, reached_cons. reflexivity.
Qed.

Lemma first_match_flat_map (r : regex) (l : list cursor) (start : nat) :
  match flat_map (fun c => matches r c []) l with
  | (c', g) :: _ => Some (Match start (pos c') g)
  | [] => None
  end =
  match find_first (first_match r) l with
  | Some t => Some (Match start (m_end t) (m_groups t))
  | None => None
  end.
Proof.
  induction l as [|c l IH]; [reflexivity|].
  cbn [flat_map find_first]. unfold first_match at 1.
  destruct (matches r c []) as [|[c' g] o]; [exact IH|reflexivity].
Qed.

(** X6: [r_name.match(chapter)] finds what a search for a word in
    parentheses finds first, on whatever line of the chapter it stands; the
    match itself starts at 0. *)
Theorem r_name_is_a_search (chapter : str) :
  re_match r_name chapter 0 =
  match re_search name_in_parentheses chapter 0 with
  | Some t => Some (Match 0 (m_end t) (m_groups t))
  | None => None
  end.
Proof.
  unfold re_match, re_search, cursor_at. cbn [cursor_from pos bol rest].
  rewrite search_from_cursors. unfold first_match at 1.
  rewrite r_name_matches. apply first_match_flat_map.
Qed.

(** ** The chapters of a text *)

Lemma split_from_none r s : forall n b piece,
  (forall c, In c (inside n b s []) -> first_match r c = None) ->
  split_from r n s b 0 piece = [rev piece ++ s].
Proof.
  induction s as [|x t IH]; intros n b piece H.
  - simpl. now rewrite app_nil_r.
  - cbn [split_from]. rewrite (H (Cur n b (x :: t))).
    + rewrite IH.
      * simpl. now rewrite <- app_assoc.
      * intros c Hc. apply H. simpl. now right.
    + simpl. rewrite app_nil_r. now left.
Qed.

(** X4: a text in which the chapter marker matches nowhere has no chapter:
    nothing is printed and the run finishes. *)
Theorem no_marker_no_output (text : str) :
  (forall i, re_match r_start text i = None) ->
  re_split r_start text = [text] /\ main text = ([], Finished).
Proof.
  intros H.
  assert (re_split r_start text = [text]) as E.
  { unfold re_split. rewrite split_from_none; [reflexivity|].
    intros c Hc.
    assert (In c (cursors 0 true text)) as Hc'
        by (unfold cursors; apply in_or_app; now left).
    apply cursors_from in Hc'. destruct Hc' as [i Hi].
    specialize (H i). unfold re_match, cursor_at in H. now rewrite Hi in H. }
  split; [exact E|]. unfold main. rewrite E. reflexivity.
Qed.

Lemma no_marker_no_output_witness :
  re_split r_start (u "1.2 a") = [u "1.2 a"]
  /\ main (u "1.2 a") = ([], Finished).
Proof.
  apply (no_marker_no_output (u "1.2 a")).
  intros i.
  do 6 (destruct i as [|i]; [vm_compute; reflexivity|]).
  reflexivity.
Defined.

(** *** A pattern without [^] matches the same way wherever the text
    stands *)

Fixpoint no_bol (r : regex) : bool :=
  match r with
  | Bol => false
  | Eps | One _ | Lit _ | Rep _ _ _ _ => true
  | Seq r1 r2 | Alt r1 r2 => no_bol r1 && no_bol r2
  | Grp _ r1 | Ahead r1 | NotAhead r1 => no_bol r1
  end.

(** Two cursors on the same text ahead, as far from [n] and from [n']. *)
Definition alike (n n' : nat) (c c' : cursor) : Prop :=
  rest c = rest c' /\ exists k, pos c = n + k /\ pos c' = n' + k.

Definition alike_results (n n' : nat) (x x' : cursor * groups) : Prop :=
  alike n n' (fst x) (fst x') /\ snd x = snd x'.

Lemma Forall2_flat_map {A B C D} (R : A -> B -> Prop) (Q : C -> D -> Prop)
  (f : A -> list C) (f' : B -> list D) l l' :
  Forall2 R l l' ->
  (forall x x', R x x' -> Forall2 Q (f x) (f' x')) ->
  Forall2 Q (flat_map f l) (flat_map f' l').
Proof.
  intros H Hf. induction H; simpl; [constructor|].
  apply Forall2_app; auto.
Qed.

Lemma Forall2_map {A B C D} (R : A -> B -> Prop) (Q : C -> D -> Prop)
  (f : A -> C) (f' : B -> D) l l' :
  Forall2 R l l' -> (forall x x', R x x' -> Q (f x) (f' x')) ->
  Forall2 Q (map f l) (map f' l').
Proof. intros H Hf. induction H; simpl; constructor; auto. Qed.

Lemma Forall2_rev {A B} (R : A -> B -> Prop) l l' :
  Forall2 R l l' -> Forall2 R (rev l) (rev l').
Proof.
  intros H. induction H; simpl; [constructor|].
  apply Forall2_app; auto.
Qed.

Lemma Forall2_skipn {A B} (R : A -> B -> Prop) l l' :
  Forall2 R l l' -> forall n, Forall2 R (skipn n l) (skipn n l').
Proof.
  intros H. induction H; intros [|n]; simpl; auto.
Qed.

Lemma runs_alike k s : forall hi n b n0 n' b' n0',
  (exists j, n = n0 + j /\ n' = n0' + j) ->
  Forall2 (alike n0 n0') (runs k hi n b s) (runs k hi n' b' s).
Proof.
  induction s as [|x t IH]; intros hi n b n0 n' b' n0' (j & Hj & Hj').
  - simpl. constructor; [|constructor]. split; simpl; eauto.
  - simpl. constructor; [split; simpl; eauto|].
    destruct (in_class k x); [|constructor].
    assert (exists j0, S n = n0 + j0 /\ S n' = n0' + j0) as Hs
        by (exists (S j); lia).
    destruct hi as [[|h]|]; [constructor| |]; now apply IH.
Qed.

Lemma strip_alike p : forall n b n' b' s,
  match strip p n b s, strip p n' b' s with
  | Some c, Some c' => rest c = rest c' /\ pos c = n + length p
                       /\ pos c' = n' + length p
  | None, None => True
  | _, _ => False
  end.
Proof.
  induction p as [|x p IH]; intros n b n' b' s; simpl.
  - repeat split; lia.
  - destruct s as [|y s]; [exact I|]. destruct (N.eqb x y); [|exact I].
    specialize (IH (S n) (N.eqb y NL) (S n') (N.eqb y NL) s).
    destruct (strip p (S n) (N.eqb y NL) s), (strip p (S n') (N.eqb y NL) s);
      auto.
    destruct IH as (A & B & C). repeat split; auto; lia.
Qed.

Lemma matches_alike r : no_bol r = true -> forall c c' g,
  rest c = rest c' ->
  Forall2 (alike_results (pos c) (pos c')) (matches r c g) (matches r c' g).
Proof.
  induction r; simpl; intros Hn c c' g Hrest; try discriminate Hn.
  - constructor; [|constructor]. split; [split|]; simpl; auto.
    exists 0. lia.
  - rewrite <- Hrest. destruct (rest c) as [|x t] eqn:E; [constructor|].
    destruct (in_class k x); [|constructor].
    unfold advance. rewrite <- Hrest, E. simpl.
    constructor; [|constructor]. split; [split|]; simpl; auto.
    exists 1. lia.
  - rewrite <- Hrest.
    pose proof (strip_alike s (pos c) (bol c) (pos c') (bol c') (rest c)) as H.
    destruct (strip s (pos c) (bol c) (rest c)),
             (strip s (pos c') (bol c') (rest c)); try contradiction;
      constructor; [|constructor].
    destruct H as (A & B & C). split; [split|]; simpl; eauto.
  - apply andb_true_iff in Hn. destruct Hn as [H1 H2].
    eapply Forall2_flat_map; [apply IHr1; assumption|].
    intros [c1 g1] [c1' g1'] [[A (j & B & C)] D]. simpl in *. subst g1'.
    eapply Forall2_impl; [|apply IHr2; assumption].
    intros [c2 g2] [c2' g2'] [[A2 (j2 & B2 & C2)] D2]. simpl in *.
    split; [split|]; simpl; auto. exists (j + j2). lia.
  - apply andb_true_iff in Hn. destruct Hn as [H1 H2].
    apply Forall2_app; auto.
  - eapply Forall2_map.
    + unfold rep. rewrite <- Hrest.
      assert (Forall2 (alike (pos c) (pos c'))
                (skipn lo (runs k hi (pos c) (bol c) (rest c)))
                (skipn lo (runs k hi (pos c') (bol c') (rest c)))) as H.
      { apply Forall2_skipn, runs_alike. exists 0. lia. }
      destruct greedy; [apply Forall2_rev|]; exact H.
    + intros x x' H. split; auto.
  - eapply Forall2_map; [apply IHr; assumption|].
    intros [c1 g1] [c1' g1'] [[A (j & B & C)] D]. simpl in *. subst g1'.
    split; [split|]; simpl; eauto.
    rewrite Hrest, B, C. do 3 f_equal. lia.
  - specialize (IHr Hn c c' g Hrest).
    destruct IHr as [|[c1 g1] [c1' g1'] l l' [_ D] _]; [constructor|].
    simpl in D. subst. constructor; [|constructor].
    split; [split|]; simpl; auto. exists 0. lia.
  - specialize (IHr Hn c c' g Hrest).
    destruct IHr; constructor; [|constructor].
    split; [split|]; simpl; auto. exists 0. lia.
Qed.

(** The length of the first match, if any. *)
Definition match_length (o : option rmatch) : option nat :=
  match o with
  | Some t => Some (m_end t - m_start t)
  | None => None
  end.

Lemma first_match_alike r n b n' b' s :
  no_bol r = true ->
  match_length (first_match r (Cur n b s)) =
  match_length (first_match r (Cur n' b' s)).
Proof.
  intros Hn. unfold first_match.
  pose proof (matches_alike r Hn (Cur n b s) (Cur n' b' s) [] eq_refl) as H.
  destruct H as [|[c1 g1] [c1' g1'] l l' [[_ (j & B & C)] _] _];
    [reflexivity|].
  simpl in *. f_equal. lia.
Qed.

Lemma split_from_alike r : no_bol r = true -> forall s n b n' b' skip piece,
  split_from r n s b skip piece = split_from r n' s b' skip piece.
Proof.
  intros Hn. induction s as [|x t IH]; intros n b n' b' skip piece;
    [reflexivity|].
  cbn [split_from]. destruct skip as [|k]; [|apply IH].
  pose proof (first_match_alike r n b n' b' (x :: t) Hn) as H.
  destruct (first_match r (Cur n b (x :: t))) as [mt|],
           (first_match r (Cur n' b' (x :: t))) as [mt'|];
    simpl in H; try discriminate.
  - inversion H as [E]. rewrite E. f_equal. apply IH.
  - apply IH.
Qed.

Lemma split_from_piece r : forall s n b skip piece,
  split_from r n s b skip piece =
  match split_from r n s b skip [] with
  | first_piece :: others => (rev piece ++ first_piece) :: others
  | [] => []
  end.
Proof.
  induction s as [|x t IH]; intros n b skip piece.
  - simpl. now rewrite app_nil_r.
  - cbn [split_from]. destruct skip as [|k]; [|apply IH].
    destruct (first_match r (Cur n b (x :: t))).
    + simpl. now rewrite app_nil_r.
    + rewrite (IH _ _ _ (x :: piece)), (IH _ _ _ [x]).
      destruct (split_from r (S n) t (N.eqb x NL) 0 []); [reflexivity|].
      simpl. now rewrite <- !app_assoc.
Qed.

Lemma split_from_skip r p : forall q n b piece,
  (forall c, In c (inside n b p q) -> first_match r c = None) ->
  split_from r n (p ++ q) b 0 piece =
  split_from r (n + length p) q (end_bol b p) 0 (rev p ++ piece).
Proof.
  induction p as [|x p IH]; intros q n b piece H.
  - simpl. unfold end_bol. simpl. f_equal. lia.
  - cbn [app split_from]. rewrite (H (Cur n b (x :: p ++ q)))
      by (simpl; now left).
    rewrite IH by (intros c Hc; apply H; simpl; now right).
    unfold end_bol. simpl. rewrite <- app_assoc. simpl. f_equal. lia.
Qed.

Lemma r_start_needs_digit n b x t :
  is_digit x = false -> first_match r_start (Cur n b (x :: t)) = None.
Proof.
  intros H. apply first_match_none. unfold r_start, plus.
  rewrite matches_seq_rep. unfold rep. cbn [pos bol rest runs in_class].
  rewrite H. reflexivity.
Qed.

(** X5: what stands before the first chapter marker is dropped: a
    preamble without a digit (no marker can start in it) changes nothing of
    what the run prints or of how it ends. *)
Theorem preamble_is_dropped (preamble text : str) :
  Forall (fun x => is_digit x = false) preamble ->
  tl (re_split r_start (preamble ++ text)) = tl (re_split r_start text)
  /\ main (preamble ++ text) = main text.
Proof.
  intros Hp.
  assert (tl (re_split r_start (preamble ++ text))
          = tl (re_split r_start text)) as E.
  { unfold re_split. rewrite split_from_skip.
    - rewrite split_from_piece.
      rewrite (split_from_alike r_start eq_refl text _ _ 0 true).
      destruct (split_from r_start 0 text true 0 []); reflexivity.
    - intros c Hc. apply in_inside in Hc.
      destruct Hc as (p1 & x & p2 & A & B & _).
      destruct c as [n b r]. simpl in B. subst r.
      apply r_start_needs_digit. rewrite Forall_forall in Hp. apply Hp.
      rewrite A. apply in_or_app. right. now left. }
  split; [exact E|]. unfold main. now rewrite E.
Qed.

Lemma preamble_is_dropped_witness :
  tl (re_split r_start (u "Rev. B, page " ++ u "1.2.3.4 REGA (REGA)"))
  = tl (re_split r_start (u "1.2.3.4 REGA (REGA)"))
  /\ main (u "Rev. B, page " ++ u "1.2.3.4 REGA (REGA)")
     = main (u "1.2.3.4 REGA (REGA)").
Proof.
  apply (preamble_is_dropped (u "Rev. B, page ") (u "1.2.3.4 REGA (REGA)")).
  chars.
Defined.

(** ** The two turns of the field loop on a line of the table *)

Lemma lone_bit_turn_witness :
  field_loop
    ([] ++ [] ++ NL :: u "  " ++ u "7" ++ 32%N :: u "rw"
        ++ NL :: u "  EN" ++ [NL])
    3 (Bits None None None) (St (Match 0 0 []) [])
  = field_loop
      ([] ++ [] ++ NL :: u "  " ++ u "7" ++ 32%N :: u "rw"
          ++ NL :: u "  EN" ++ [NL])
      2 (Bits (Some (u "7")) None (Some (u "7")))
      (St (Match 7 12 [("fldname_solo"%string, u "EN")])
          ([] ++ [field_line (u "EN") (u "7")])).
Proof.
  apply (lone_bit_turn [] [] (u "  ") (u "7") (u "rw") (u "  EN" ++ [NL])
           (u "EN") 32%N (Bits None None None) (St (Match 0 0 []) [])
           (St (Match 7 12 [("fldname_solo"%string, u "EN")]) []) 2).
  - reflexivity.
  - constructor.
  - chars.
  - simpl. lia.
  - chars.
  - discriminate.
  - reflexivity.
  - chars.
  - vm_compute. reflexivity.
  - discriminate.
Defined.

Lemma pair_turn_witness :
  field_loop
    ([] ++ [] ++ NL :: u "  " ++ u "15" ++ range_sep ++ u "8" ++ u " rw"
        ++ NL :: u "  BAUD" ++ [NL])
    3 (Bits None None None) (St (Match 0 0 []) [])
  = field_loop
      ([] ++ [] ++ NL :: u "  " ++ u "15" ++ range_sep ++ u "8" ++ u " rw"
          ++ NL :: u "  BAUD" ++ [NL])
      2 (Bits (Some (u "15")) (Some (u "8")) (Some (u "15" ++ u "-" ++ u "8")))
      (St (Match 12 19 [("fldname_solo"%string, u "BAUD")])
          ([] ++ [field_line (u "BAUD") (u "15" ++ u "-" ++ u "8")])).
Proof.
  apply (pair_turn [] [] (u "  ") (u "15") (u "8") (u " rw")
           (u "  BAUD" ++ [NL]) (u "BAUD") (Bits None None None)
           (St (Match 0 0 []) [])
           (St (Match 12 19 [("fldname_solo"%string, u "BAUD")]) []) 2).
  - reflexivity.
  - constructor.
  - chars.
  - simpl. lia.
  - chars.
  - discriminate.
  - chars.
  - discriminate.
  - reflexivity.
  - chars.
  - vm_compute. reflexivity.
  - discriminate.
Defined.

(** ** What the lines printed look like *)








(** *** The groups of the patterns *)

























(** ** The chapters are processed independently *)

(** A computation that only appends to what was printed, and whose result
    and match do not depend on it. *)
Definition framed {A} (c : M A) : Prop :=
  forall mm out,
    c (St mm out) =
    (fst (c (St mm [])),
     St (m (snd (c (St mm [])))) (out ++ stdout (snd (c (St mm []))))).

Lemma framed_ret {A} (a : A) : framed (ret a).
Proof. intros mm out. unfold ret. simpl. now rewrite app_nil_r. Qed.

Lemma framed_raise {A} (e : exn) : framed (@raise A e).
Proof. intros mm out. unfold raise. simpl. now rewrite app_nil_r. Qed.

Lemma framed_print line : framed (print line).
Proof. intros mm out. reflexivity. Qed.

Lemma framed_get_m : framed get_m.
Proof. intros mm out. unfold get_m. simpl. now rewrite app_nil_r. Qed.

Lemma framed_set_m x : framed (set_m x).
Proof. intros mm out. unfold set_m. simpl. now rewrite app_nil_r. Qed.

Lemma framed_bind {A B} (c : M A) (k : A -> M B) :
  framed c -> (forall a, framed (k a)) -> framed (bind c k).
Proof.
  intros Hc Hk mm out. unfold bind. rewrite (Hc mm out).
  destruct (c (St mm [])) as [[a|e] [m1 out1]]; simpl.
  - rewrite (Hk a m1 (out ++ out1)), (Hk a m1 out1). simpl.
    now rewrite app_assoc.
  - reflexivity.
Qed.

Lemma framed_get_nextm chapter regexp is_search :
  framed (get_nextm chapter regexp is_search).
Proof.
  intros mm out. unfold get_nextm. simpl.
  destruct (if is_search then re_search regexp chapter (m_end mm)
            else re_match regexp chapter (m_end mm)); simpl;
    now rewrite app_nil_r.
Qed.

Create HintDb framed.

#[local] Hint Resolve framed_ret framed_raise framed_print framed_get_m
  framed_set_m framed_get_nextm : framed.

Lemma framed_if {A} (b : bool) (c1 c2 : M A) :
  framed c1 -> framed c2 -> framed (if b then c1 else c2).
Proof. now destruct b. Qed.

Lemma framed_get_fldname_rec chapter : forall n fieldname,
  framed (get_fldname_rec chapter n fieldname).
Proof.
  induction n as [|n IH]; intros fieldname; simpl; [auto with framed|].
  apply framed_bind; [auto with framed|intros _].
  apply framed_bind; [auto with framed|intros found].
  apply framed_if; [auto with framed|].
  apply framed_bind; [auto with framed|intros mm].
  repeat apply framed_if; auto with framed.
Qed.

Lemma framed_get_fldname chapter fieldname :
  framed (get_fldname chapter fieldname).
Proof. apply framed_get_fldname_rec. Qed.

Lemma framed_field_loop chapter : forall n b,
  framed (field_loop chapter n b).
Proof.
  induction n as [|n IH]; intros b; simpl; [auto with framed|].
  apply framed_bind; [auto with framed|intros more].
  apply framed_if; [auto with framed|].
  apply framed_bind; [auto with framed|intros mm].
  apply framed_bind; [apply framed_get_fldname|intros fieldname].
  apply framed_bind; [apply framed_if; auto with framed|intros _].
  apply IH.
Qed.

Lemma framed_ending_field b : framed (ending_field b).
Proof.
  unfold ending_field, minus_one_to_zero.
  destruct (sb b) as [l|]; [destruct (int l)|];
    [| |destruct (eb b) as [h|]; [destruct (int h)|]];
    auto with framed.
Qed.

Lemma framed_trailing_field chapter b : framed (trailing_field chapter b).
Proof.
  unfold trailing_field.
  apply framed_if; [auto with framed|].
  apply framed_bind; [apply framed_get_fldname|intros name].
  apply framed_if; [auto with framed|].
  apply framed_bind; [apply framed_ending_field|intros fld].
  destruct fld; auto with framed.
Qed.

Lemma framed_get_address chapter : framed (get_address chapter).
Proof.
  unfold get_address.
  apply framed_bind; [auto with framed|intros found].
  apply framed_if; [auto with framed|].
  apply framed_bind; auto with framed.
Qed.

Lemma framed_field_table chapter : framed (field_table chapter).
Proof.
  unfold field_table.
  apply framed_bind; [auto with framed|intros found].
  apply framed_if; [auto with framed|].
  apply framed_bind; [apply framed_field_loop|intros b].
  apply framed_trailing_field.
Qed.

Lemma framed_register chapter m0 : framed (register chapter m0).
Proof.
  unfold register.
  apply framed_bind; [auto with framed|intros _].
  apply framed_bind; [apply framed_get_address|intros address].
  apply framed_bind; [auto with framed|intros _].
  apply framed_field_table.
Qed.

(** The state in which the script starts. *)
Definition start : state := St (Match 0 0 []) [].

(** What a chapter prints and how it ends do not depend on the match
    left by the chapters before it: [m] is assigned anew from the name
    line. *)
Lemma body_alone chapter s :
  fst (body chapter s) = fst (body chapter start)
  /\ stdout (snd (body chapter s))
     = stdout s ++ stdout (snd (body chapter start)).
Proof.
  unfold body. destruct (re_match r_name chapter 0) as [m0|].
  - destruct s as [mm out]. unfold start.
    assert (forall mm out,
               register chapter m0 (St mm out) =
               register chapter m0 (St m0 out)) as Hm.
    { intros m1 out1. unfold register. unfold bind at 1 3. reflexivity. }
    rewrite (Hm mm out), (Hm (Match 0 0 []) []).
    rewrite (framed_register chapter m0 m0 out). simpl. auto.
  - simpl. now rewrite app_nil_r.
Qed.

(** The lines of the chapters one by one, up to the first that stops the
    run. *)
Fixpoint lines_by_chapter (chapters : list str) : list str :=
  match chapters with
  | [] => []
  | chapter :: more =>
      match body chapter start with
      | (Val _, s) => stdout s ++ lines_by_chapter more
      | (Exn _, s) => stdout s
      end
  end.

Lemma for_chapters_by_chapter : forall chapters s,
  stdout (snd (for_chapters chapters s))
  = stdout s ++ lines_by_chapter chapters.
Proof.
  induction chapters as [|c chapters IH]; intros s; simpl.
  - now rewrite app_nil_r.
  - unfold bind. destruct (body_alone c s) as [A B].
    destruct (body c s) as [r1 s1]. destruct (body c start) as [r0 s0].
    simpl in A, B. subst r1. destruct r0 as [[]|e].
    + rewrite IH, B. now rewrite app_assoc.
    + exact B.
Qed.

(** X3: the output of a run is the output of its chapters, each taken alone,
    one after the other up to the first chapter that stops the run. *)
Theorem output_by_chapter (text : str) :
  fst (main text) = lines_by_chapter (tl (re_split r_start text)).
Proof.
  unfold main.
  pose proof (for_chapters_by_chapter (tl (re_split r_start text))
                (St (Match 0 0 []) [])) as H.
  destruct (for_chapters (tl (re_split r_start text)) (St (Match 0 0 []) []))
    as [[[]|e] s]; simpl in *; exact H.
Qed.

(** ** The columns of the register line *)

(** The column reached after [s], from column [col], with a tab stop
    every eight columns. *)
Fixpoint column (col : nat) (s : str) : nat :=
  match s with
  | [] => col
  | x :: t => column (if N.eqb x TAB then 8 * (col / 8 + 1) else S col) t
  end.

Lemma column_app s : forall col t,
  column col (s ++ t) = column (column col s) t.
Proof. induction s as [|x s IH]; intros col t; simpl; auto. Qed.

Lemma column_plain s : forall col,
  Forall (fun x => x <> TAB) s -> column col s = col + length s.
Proof.
  induction s as [|x s IH]; intros col H; simpl; [lia|].
  inversion H; subst. apply N.eqb_neq in H2. rewrite H2, IH by assumption.
  lia.
Qed.

(** The local [space] of the main loop: one tab, and one more below
    each of the lengths 16 and 8. *)
Definition space (regname : str) : str :=
  [TAB] ++ (if length regname <? 16 then [TAB] else [])
        ++ (if length regname <? 8 then [TAB] else []).

(** X11: the register line is the name, [space] and the address, and with
    a tab stop every eight columns the tabs bring the address to column 24
    for every name shorter than 24 characters. *)
Theorem address_column (regname address : str) :
  Forall (fun x => x <> TAB) regname -> length regname < 24 ->
  register_line regname address = regname ++ space regname ++ address
  /\ column 0 (regname ++ space regname) = 24.
Proof.
  intros H Hl. split; [reflexivity|].
  rewrite column_app, (column_plain regname 0 H), Nat.add_0_l.
  unfold space.
  destruct (Nat.ltb_spec (length regname) 16) as [A|A];
    destruct (Nat.ltb_spec (length regname) 8) as [B|B]; try lia;
    cbn [app column]; rewrite N.eqb_refl.
  - replace (length regname / 8) with 0
      by (symmetry; apply Nat.div_small; lia).
    reflexivity.
  - replace (length regname / 8) with 1
      by (apply Nat.div_unique with (r := length regname - 8); lia).
    reflexivity.
  - replace (length regname / 8) with 2
      by (apply Nat.div_unique with (r := length regname - 16); lia).
    reflexivity.
Qed.

Lemma address_column_witness :
  register_line (u "UART_CTRL") (u "0x40001000")
  = u "UART_CTRL" ++ space (u "UART_CTRL") ++ u "0x40001000"
  /\ column 0 (u "UART_CTRL" ++ space (u "UART_CTRL")) = 24.
Proof.
  apply (address_column (u "UART_CTRL") (u "0x40001000")).
  - chars.
  - simpl. lia.
Defined.

(** * svd2devregs.py: the text of the dat file *)

(** ** The format [{:#010x}] *)

Definition hex_digit (d : N) : char :=
  (if d <? 10 then 48 + d else 87 + d)%N.

(** The hexadecimal digits of [n] in front of [acc], the most significant
    first. *)
Fixpoint hex_acc (k : nat) (n : N) (acc : str) : str :=
  match k with
  | 0 => acc
  | S k' =>
      let acc' := hex_digit (n mod 16) :: acc in
      if (n / 16 =? 0)%N then acc' else hex_acc k' (n / 16) acc'
  end.

(** [format(n, "x")] of a number that is not negative: it has no more
    digits than bits. *)
Definition hex (n : N) : str := hex_acc (S (N.to_nat (N.log2 n))) n [].

(** [format(z, "#010x")]: the sign, [0x], and the digits behind zeros
    that fill ten characters. *)
Definition format_010x (z : Z) : str :=
  let sign := if (z <? 0)%Z then u "-" else [] in
  let digits := hex (Z.abs_N z) in
  sign ++ u "0x"
       ++ repeat 48%N (10 - (length sign + 2 + length digits)) ++ digits.

Record svd_register :=
  Register { register_name : str; address_offset : Z;
             fields : list Svd.svd_field }.

Record svd_peripheral :=
  Peripheral { peripheral_name : str; base_address : Z;
               registers : list svd_register }.

(** Lines 30 to 35: what is written for one register. *)
Definition register_text (p : svd_peripheral) (r : svd_register) : str :=
  peripheral_name p ++ u "_" ++ register_name r ++ [TAB; TAB]
    ++ format_010x (base_address p + address_offset r) ++ [NL]
    ++ Svd.fields_text (peripheral_name p) (fields r).

(** Lines 28 to 35: what is written for one peripheral. *)
Definition peripheral_text (p : svd_peripheral) : str :=
  peripheral_name p ++ u "_BASE" ++ [TAB; TAB]
    ++ format_010x (base_address p) ++ [NL]
    ++ concat (map (register_text p) (registers p)).

(** Lines 27 to 35: what the loops write to the dat file. *)
Definition device_text (peripherals : list svd_peripheral) : str :=
  concat (map peripheral_text peripherals).

Example format_010x_examples :
  map format_010x [0; 255; 1073745920; 4294967295; 4294967296; -5]%Z
  = [u "0x00000000"; u "0x000000ff"; u "0x40001000"; u "0xffffffff";
     u "0x100000000"; u "-0x0000005"].
Proof. vm_compute. reflexivity. Qed.

Example device_text_example :
  device_text
    [Peripheral (u "UART") 1073745920
       [Register (u "CR") 4
          [Svd.Field (u "BAUD") 4 12; Svd.Field (u "EN") 0 1]]]
  = u "UART_BASE" ++ [TAB; TAB] ++ u "0x40001000" ++ [NL]
    ++ u "UART_CR" ++ [TAB; TAB] ++ u "0x40001004" ++ [NL]
    ++ [TAB] ++ u ":UART_BAUD:4-15" ++ [NL]
    ++ [TAB] ++ u ":UART_EN:0" ++ [NL].
Proof. vm_compute. reflexivity. Qed.

(** ** The digits *)

Definition is_lower_hex (c : char) : bool :=
  (((48 <=? c) && (c <=? 57)) || ((97 <=? c) && (c <=? 102)))%N.

Definition hex_digit_value (c : char) : N :=
  (if c <? 58 then c - 48 else c - 87)%N.

Definition hex_value (s : str) (from : N) : N :=
  fold_left (fun a c => (16 * a + hex_digit_value c)%N) s from.

Lemma hex_digit_lower d :
  (d < 16)%N -> is_lower_hex (hex_digit d) = true.
Proof.
  intros H. unfold is_lower_hex, hex_digit.
  destruct (N.ltb_spec d 10);
    repeat match goal with
    | |- context [(?a <=? ?b)%N] => destruct (N.leb_spec a b)
    end; simpl; try reflexivity; lia.
Qed.

Lemma hex_digit_value_inverse d : (d < 16)%N -> hex_digit_value (hex_digit d) = d.
Proof.
  intros H. unfold hex_digit_value, hex_digit.
  destruct (N.ltb_spec d 10);
    match goal with
    | |- context [(?a <? ?b)%N] => destruct (N.ltb_spec a b)
    end; lia.
Qed.

Lemma mod_16 n : (n mod 16 < 16)%N.
Proof. apply N.mod_lt. discriminate. Qed.

Lemma div_mod_16 n : (n = 16 * (n / 16) + n mod 16)%N.
Proof. apply N.div_mod. discriminate. Qed.

(** The digits written stand for the number. *)
Lemma hex_acc_value : forall k n acc,
  (n < 16 ^ N.of_nat k)%N ->
  hex_value (hex_acc k n acc) 0 = hex_value acc n.
Proof.
  induction k as [|k IH]; intros n acc H.
  - simpl in H. assert (n = 0%N) as -> by lia. reflexivity.
  - cbn [hex_acc]. cbv zeta.
    pose proof (mod_16 n) as Hm. pose proof (div_mod_16 n) as Hd.
    destruct (N.eqb_spec (n / 16) 0) as [E|E].
    + unfold hex_value. cbn [fold_left].
      rewrite hex_digit_value_inverse by assumption.
      f_equal. lia.
    + rewrite IH.
      * unfold hex_value. cbn [fold_left].
        rewrite hex_digit_value_inverse by assumption.
        f_equal. lia.
      * rewrite Nat2N.inj_succ, N.pow_succ_r' in H.
        apply N.Div0.div_lt_upper_bound. assumption.
Qed.

Lemma enough_digits n : (n < 16 ^ N.of_nat (S (N.to_nat (N.log2 n))))%N.
Proof.
  rewrite Nat2N.inj_succ, N2Nat.id.
  destruct n as [|p]; [reflexivity|].
  pose proof (N.log2_spec (N.pos p) eq_refl) as [_ H].
  eapply N.lt_le_trans; [exact H|].
  apply N.pow_le_mono_l. lia.
Qed.

Lemma hex_value_hex n : hex_value (hex n) 0 = n.
Proof.
  unfold hex. rewrite hex_acc_value; [reflexivity|apply enough_digits].
Qed.

Lemma hex_value_zeros k s : hex_value (repeat 48%N k ++ s) 0 = hex_value s 0.
Proof.
  induction k as [|k IH]; [reflexivity|].
  simpl. exact IH.
Qed.

Lemma hex_acc_is_hex : forall k n acc,
  Forall (fun c => is_lower_hex c = true) acc ->
  Forall (fun c => is_lower_hex c = true) (hex_acc k n acc).
Proof.
  induction k as [|k IH]; intros n acc H; [exact H|].
  cbn [hex_acc]. cbv zeta.
  assert (Forall (fun c => is_lower_hex c = true)
            (hex_digit (n mod 16) :: acc)).
  { constructor; [apply hex_digit_lower, mod_16|assumption]. }
  destruct (n / 16 =? 0)%N; auto.
Qed.

(** No more than [j] digits for a number below [16 ^ j]. *)
Lemma hex_acc_short : forall k n acc j,
  (n < 16 ^ N.of_nat (S j))%N ->
  length (hex_acc k n acc) <= S j + length acc.
Proof.
  induction k as [|k IH]; intros n acc j H; [simpl; lia|].
  cbn [hex_acc]. cbv zeta.
  destruct (N.eqb_spec (n / 16) 0) as [E|E]; [simpl; lia|].
  destruct j as [|j].
  - exfalso. apply E. apply N.div_small. exact H.
  - rewrite (IH _ _ j); [simpl; lia|].
    rewrite Nat2N.inj_succ, N.pow_succ_r' in H.
    apply N.Div0.div_lt_upper_bound. assumption.
Qed.

(** More than [j] digits from [16 ^ j] on, where the bound [k] of the
    model is not met. *)
Lemma hex_acc_long : forall k n acc j,
  (16 ^ N.of_nat j <= n)%N -> (n < 16 ^ N.of_nat k)%N ->
  S j + length acc <= length (hex_acc k n acc).
Proof.
  induction k as [|k IH]; intros n acc j Hj H.
  - simpl in H.
    assert (16 ^ N.of_nat j <> 0)%N by (apply N.pow_nonzero; discriminate).
    lia.
  - cbn [hex_acc]. cbv zeta.
    rewrite Nat2N.inj_succ, N.pow_succ_r' in H.
    destruct (N.eqb_spec (n / 16) 0) as [E|E].
    + destruct j as [|j]; [simpl; lia|]. exfalso.
      rewrite Nat2N.inj_succ, N.pow_succ_r' in Hj.
      pose proof (div_mod_16 n). pose proof (mod_16 n).
      assert (16 ^ N.of_nat j <> 0)%N by (apply N.pow_nonzero; discriminate).
      lia.
    + assert (n / 16 < 16 ^ N.of_nat k)%N as Hk
        by (apply N.Div0.div_lt_upper_bound; assumption).
      destruct j as [|j].
      * assert (16 ^ N.of_nat 0 <= n / 16)%N as H0
          by (change (1 <= n / 16)%N; clear - E;
              destruct (n / 16)%N; [congruence|lia]).
        pose proof (IH _ (hex_digit (n mod 16) :: acc) 0 H0 Hk) as H1.
        cbn [length] in H1. lia.
      * rewrite Nat2N.inj_succ, N.pow_succ_r' in Hj.
        assert (16 ^ N.of_nat j <= n / 16)%N as H0
          by (apply N.div_le_lower_bound; [discriminate|assumption]).
        pose proof (IH _ (hex_digit (n mod 16) :: acc) j H0 Hk) as H1.
        cbn [length] in H1. lia.
Qed.

Lemma hex_is_hex n : Forall (fun c => is_lower_hex c = true) (hex n).
Proof. apply hex_acc_is_hex. constructor. Qed.

Lemma hex_length_pos n : 1 <= length (hex n).
Proof.
  unfold hex. cbn [hex_acc]. cbv zeta.
  destruct (n / 16 =? 0)%N; [simpl; lia|].
  assert (forall k m acc, length acc <= length (hex_acc k m acc)) as H.
  { induction k as [|k IH]; intros m acc; [simpl; lia|].
    cbn [hex_acc]. cbv zeta. destruct (m / 16 =? 0)%N; [simpl; lia|].
    etransitivity; [|apply IH]. simpl. lia. }
  etransitivity; [|apply H]. simpl. lia.
Qed.

Lemma zeros_are_hex k :
  Forall (fun c => is_lower_hex c = true) (repeat 48%N k).
Proof. induction k; simpl; constructor; auto. Qed.

(** X12: an address from 0 to 2^32 - 1 is written in ten characters, [0x]
    and eight hexadecimal digits in lower case; a larger one takes more
    than ten, nothing of it is cut off. *)
Theorem format_010x_width (a : Z) :
  (0 <= a)%Z ->
  ((a < 2 ^ 32)%Z ->
     exists d, format_010x a = u "0x" ++ d /\ length d = 8
               /\ Forall (fun c => is_lower_hex c = true) d)
  /\ ((2 ^ 32 <= a)%Z -> 10 < length (format_010x a)).
Proof.
  intros H0. unfold format_010x.
  assert ((a <? 0)%Z = false) as -> by lia.
  rewrite (Zabs2N.abs_N_nonneg a H0).
  cbn [app length]. split; intros H;
    change (2 ^ 32)%Z with 4294967296%Z in H.
  - eexists. split; [reflexivity|].
    assert (length (hex (Z.to_N a)) <= 8) as Hlen.
    { unfold hex.
      pose proof (hex_acc_short (S (N.to_nat (N.log2 (Z.to_N a))))
                    (Z.to_N a) [] 7) as Hs.
      simpl length in Hs. rewrite Nat.add_0_r in Hs. apply Hs.
      change (16 ^ N.of_nat 8)%N with 4294967296%N. lia. }
    split.
    + rewrite length_app, repeat_length.
      change (10 - (0 + 2 + length (hex (Z.to_N a)))
              + length (hex (Z.to_N a)) = 8).
      lia.
    + apply Forall_app. split; [apply zeros_are_hex|apply hex_is_hex].
  - rewrite !length_app, repeat_length.
    assert (9 <= length (hex (Z.to_N a))) as Hlen.
    { unfold hex.
      pose proof (hex_acc_long (S (N.to_nat (N.log2 (Z.to_N a))))
                    (Z.to_N a) [] 8) as Hs.
      simpl length in Hs. rewrite Nat.add_0_r in Hs. apply Hs.
      - change (16 ^ N.of_nat 8)%N with 4294967296%N. lia.
      - apply enough_digits. }
    change (10 < 2 + (10 - (0 + 2 + length (hex (Z.to_N a)))
                      + length (hex (Z.to_N a)))).
    lia.
Qed.

Lemma format_010x_width_witness :
  exists d, format_010x 1073745920 = u "0x" ++ d /\ length d = 8
            /\ Forall (fun c => is_lower_hex c = true) d.
Proof.
  apply (proj1 (format_010x_width 1073745920 ltac:(lia))). reflexivity.
Defined.

Lemma format_010x_value z :
  hex_value (skipn (if (z <? 0)%Z then 3 else 2) (format_010x z)) 0
  = Z.abs_N z.
Proof.
  unfold format_010x. destruct (z <? 0)%Z; cbn [app u skipn];
    now rewrite hex_value_zeros, hex_value_hex.
Qed.

(** X13: two numbers are never written alike. *)
Theorem format_010x_differs (a b : Z) :
  a <> b -> format_010x a <> format_010x b.
Proof.
  intros Hab E.
  pose proof (format_010x_value a) as Ha.
  pose proof (format_010x_value b) as Hb.
  rewrite E in Ha.
  destruct (a <? 0)%Z eqn:Sa; destruct (b <? 0)%Z eqn:Sb.
  - rewrite Ha in Hb. lia.
  - unfold format_010x in E. rewrite Sa, Sb in E. discriminate E.
  - unfold format_010x in E. rewrite Sa, Sb in E. discriminate E.
  - rewrite Ha in Hb. lia.
Qed.

Lemma format_010x_differs_witness :
  format_010x 1073745920 <> format_010x 1073745924.
Proof. apply (format_010x_differs 1073745920 1073745924). lia. Defined.

(** ** The lines of the dat file *)

Definition newlines (s : str) : nat := count_occ N.eq_dec s NL.

(** A text without a newline. *)
Definition plain (s : str) : Prop := Forall (fun c => c <> NL) s.

Definition plain_field (f : Svd.svd_field) : Prop := plain (Svd.name f).

Definition plain_register (r : svd_register) : Prop :=
  plain (register_name r) /\ Forall plain_field (fields r).

Definition plain_peripheral (p : svd_peripheral) : Prop :=
  plain (peripheral_name p) /\ Forall plain_register (registers p).

(** The peripherals, registers and fields of a device, counted. *)
Definition register_entries (r : svd_register) : nat :=
  S (length (fields r)).

Definition peripheral_entries (p : svd_peripheral) : nat :=
  S (list_sum (map register_entries (registers p))).

Definition entries (peripherals : list svd_peripheral) : nat :=
  list_sum (map peripheral_entries peripherals).

Lemma newlines_app s t : newlines (s ++ t) = newlines s + newlines t.
Proof. apply count_occ_app. Qed.

Lemma newlines_plain s : plain s -> newlines s = 0.
Proof.
  intros H. apply count_occ_not_In. intros Hin.
  unfold plain in H. rewrite Forall_forall in H. now apply (H NL).
Qed.

Lemma newlines_NL : newlines [NL] = 1.
Proof. reflexivity. Qed.

Lemma plain_app s t : plain s -> plain t -> plain (s ++ t).
Proof. intros A B. apply Forall_app. now split. Qed.

Lemma plain_uint d : plain (u (NilEmpty.string_of_uint d)).
Proof.
  induction d; simpl; try (constructor; [discriminate|assumption]).
  constructor.
Qed.

Lemma plain_str_of_int z : plain (str_of_int z).
Proof.
  unfold str_of_int, NilZero.string_of_int.
  destruct (Z.to_int z) as [d|d].
  - unfold NilZero.string_of_uint. destruct d; try apply plain_uint.
    repeat constructor. discriminate.
  - simpl. constructor; [discriminate|].
    unfold NilZero.string_of_uint. destruct d; try apply plain_uint.
    repeat constructor. discriminate.
Qed.

Lemma plain_hex s : Forall (fun c => is_lower_hex c = true) s -> plain s.
Proof.
  intros H. eapply Forall_impl; [|exact H].
  intros c Hc E. subst c. discriminate Hc.
Qed.

Lemma plain_format_010x z : plain (format_010x z).
Proof.
  unfold format_010x. repeat apply plain_app.
  - destruct (z <? 0)%Z; repeat constructor. discriminate.
  - repeat constructor; discriminate.
  - apply plain_hex, zeros_are_hex.
  - apply plain_hex, hex_is_hex.
Qed.

Lemma plain_literal (s : str) :
  forallb (fun c => negb (N.eqb c NL)) s = true -> plain s.
Proof.
  intros H. unfold plain. rewrite Forall_forall. intros c Hc.
  rewrite forallb_forall in H. apply H in Hc.
  intros E. subst c. discriminate Hc.
Qed.

Ltac count_newlines :=
  repeat rewrite newlines_app;
  repeat match goal with
  | |- context [newlines [NL]] => rewrite newlines_NL
  | |- context [newlines ?s] =>
      rewrite (newlines_plain s)
        by first [assumption | apply plain_str_of_int
                 | apply plain_format_010x
                 | apply plain_literal; reflexivity]
  end.

Lemma newlines_field_text per f :
  plain per -> plain_field f -> newlines (Svd.field_text per f) = 1.
Proof.
  intros Hp Hf. unfold plain_field in Hf. unfold Svd.field_text.
  destruct (Svd.bit_width f >? 1)%Z; count_newlines; reflexivity.
Qed.

Lemma newlines_fields_text per fs :
  plain per -> Forall plain_field fs ->
  newlines (Svd.fields_text per fs) = length fs.
Proof.
  intros Hp Hf. unfold Svd.fields_text.
  induction Hf as [|f fs H _ IH]; [reflexivity|].
  cbn [map concat length]. rewrite newlines_app, IH.
  now rewrite newlines_field_text.
Qed.

Lemma newlines_register_text p r :
  plain (peripheral_name p) -> plain_register r ->
  newlines (register_text p r) = register_entries r.
Proof.
  intros Hp [Hr Hf]. unfold register_text, register_entries.
  rewrite !app_assoc, newlines_app, newlines_fields_text by assumption.
  rewrite <- !app_assoc. count_newlines. reflexivity.
Qed.

Lemma newlines_peripheral_text p :
  plain_peripheral p -> newlines (peripheral_text p) = peripheral_entries p.
Proof.
  intros [Hp Hr]. unfold peripheral_text, peripheral_entries.
  rewrite !app_assoc, newlines_app. rewrite <- !app_assoc.
  assert (newlines (concat (map (register_text p) (registers p)))
          = list_sum (map register_entries (registers p))) as ->.
  { induction Hr as [|r rs H _ IH]; [reflexivity|].
    cbn [map concat list_sum]. rewrite newlines_app, IH.
    now rewrite newlines_register_text. }
  count_newlines. reflexivity.
Qed.

(** X14: the dat file holds one line for each peripheral, each register
    and each field, where no name holds a newline. *)
Theorem one_line_per_entry (peripherals : list svd_peripheral) :
  Forall plain_peripheral peripherals ->
  newlines (device_text peripherals) = entries peripherals.
Proof.
  intros H. unfold device_text, entries.
  induction H as [|p ps Hp _ IH]; [reflexivity|].
  cbn [map concat list_sum]. rewrite newlines_app, IH.
  now rewrite newlines_peripheral_text.
Qed.

Lemma one_line_per_entry_witness :
  newlines
    (device_text
       [Peripheral (u "UART") 1073745920
          [Register (u "CR") 4
             [Svd.Field (u "BAUD") 4 12; Svd.Field (u "EN") 0 1]]])
  = entries
      [Peripheral (u "UART") 1073745920
         [Register (u "CR") 4
            [Svd.Field (u "BAUD") 4 12; Svd.Field (u "EN") 0 1]]].
Proof.
  apply (one_line_per_entry
           [Peripheral (u "UART") 1073745920
              [Register (u "CR") 4
                 [Svd.Field (u "BAUD") 4 12; Svd.Field (u "EN") 0 1]]]).
  repeat (constructor; try discriminate).
Defined.
